(** * The YUYV (YUY2) packing routine of [main.cpp]

    A shallow embedding of [GetRawYUYVData] and of the three conversion
    lambdas [RGB2Y], [RGB2U], [RGB2V], followed by the properties that the
    specification states about them.

    Conventions of the embedding:
    - [uint8_t] is [Byte.byte]; narrowing to it is [static_cast_uint8]
      (reduction modulo 256) and the integral promotion back to [int] is
      [to_int];
    - [int] is [Z]; the one computation whose value is not bounded by an
      [int] already at hand, the product [W * H * 2], goes through
      [int_mul], which reports signed overflow (undefined behaviour in
      C++) instead of a value; the sums of the conversion lambdas fit
      [int] for 8-bit operands (proved below), and [W--], [x + 1],
      [x += 2], [++y] and [idx++] stay within the bounds that [W], [H]
      and the buffer size set;
    - [>>] on [int] is [Z.shiftr] (arithmetic), [/] and [%] on [int] are
      [Z.quot] and [Z.rem] (truncation toward zero);
    - the function body is a program of a small state-and-fault monad over
      the locals [buffer] and [idx], the image it reads through its
      [const] reference, and the sequence of element accesses it makes. *)

From Stdlib Require Import ZArith Lia.
From Stdlib.Strings Require Import Byte.
From stdpp Require Import base list.

Local Open Scope Z_scope.

(** ** Machine integers *)

Abbreviation uint8_t := byte (only parsing).

Definition INT_MAX : Z := 2147483647.
Definition INT_MIN : Z := -2147483648.

(** Does [z] fit a 32-bit [int]? *)
Definition in_int (z : Z) : bool := (INT_MIN <=? z) && (z <=? INT_MAX).

(** Integral promotion [uint8_t -> int]. *)
Definition to_int (b : uint8_t) : Z := Z.of_N (Byte.to_N b).

(** [static_cast<uint8_t>(z)], also the implicit narrowing of an
    initialisation [uint8_t v = z]: the value modulo 256. *)
Definition static_cast_uint8 (z : Z) : uint8_t :=
  default x00 (Byte.of_N (Z.to_N (z mod 256))).

(** ** Pixels and images *)

(** [cv::Vec3b]: three channels, [p[0]], [p[1]], [p[2]] (blue, green, red
    for the BGR images this routine receives). *)
Record Vec3b : Type := mkVec3b { ch0 : uint8_t; ch1 : uint8_t; ch2 : uint8_t }.

(** [cv::Mat] of type [CV_8UC3]: the header fields [rows] and [cols], and
    the element store addressed by (row, column). *)
Record Mat : Type := mkMat { rows : Z; cols : Z; elem : Z -> Z -> Vec3b }.

(** ** The conversion lambdas (lines 29-31) *)

Definition RGB2Y (r g b : Z) : Z :=
  to_int (static_cast_uint8 (Z.shiftr (66 * r + 129 * g + 25 * b + 128) 8)) + 16.

Definition RGB2U (r g b : Z) : Z :=
  to_int (static_cast_uint8 (Z.shiftr (-38 * r - 74 * g + 112 * b + 128) 8)) + 128.

Definition RGB2V (r g b : Z) : Z :=
  to_int (static_cast_uint8 (Z.shiftr (112 * r - 94 * g - 18 * b + 128) 8)) + 128.

(** ** The monad of the function body *)

Inductive fault : Type :=
  | signed_overflow      (* an [int] product left the range of [int] *)
  | length_error         (* [std::vector] asked for a negative size *)
  | read_out_of_range    (* [bgr.at] outside the image *)
  | write_out_of_range   (* [buffer[idx]] outside the vector *)
  | out_of_fuel.         (* a loop of the model ran out of fuel *)

Record state : Type := mkState {
  image  : Mat;               (* the caller's image, behind [const cv::Mat&] *)
  buffer : list uint8_t;      (* [std::vector<uint8_t> buffer] *)
  idx    : Z;                 (* [int idx] *)
  reads  : list (Z * Z)       (* every (row, column) handed to [bgr.at], oldest first *)
}.

Inductive outcome (A : Type) : Type :=
  | Ok (a : A) (s : state)
  | Fault (f : fault) (s : state).
Arguments Ok {A} a s.
Arguments Fault {A} f s.

Definition M (A : Type) : Type := state -> outcome A.

#[export] Instance M_ret : MRet M := fun A a s => Ok a s.
#[export] Instance M_bind : MBind M := fun A B f m s =>
  match m s with
  | Ok a s' => f a s'
  | Fault e s' => Fault e s'
  end.

Definition raise {A : Type} (e : fault) : M A := fun s => Fault e s.

Definition final_state {A : Type} (o : outcome A) : state :=
  match o with Ok _ s => s | Fault _ s => s end.

(** [a * b] on [int]. A product outside [int] is undefined behaviour:
    the embedding stops there with [signed_overflow] and describes nothing
    of what a compiled program goes on to do, so the properties below are
    stated for computations that stay within [int]. *)
Definition int_mul (a b : Z) : M Z :=
  if in_int (a * b) then mret (a * b) else raise signed_overflow.

(** [std::vector<uint8_t> buffer(n)] with [n] an [int]: [n] zero bytes; a
    negative [n] converts to a size beyond [max_size()]. *)
Definition vector_new (n : Z) : M unit := fun s =>
  if n <? 0 then Fault length_error s
  else Ok tt (mkState (image s) (replicate (Z.to_nat n) x00) (idx s) (reads s)).

Definition set_idx (i : Z) : M unit := fun s =>
  Ok tt (mkState (image s) (buffer s) i (reads s)).

(** [bgr.at<cv::Vec3b>(y, x)]: the access is recorded, then answered from
    the image when it lies inside it. *)
Definition at_ (y x : Z) : M Vec3b := fun s =>
  let s' := mkState (image s) (buffer s) (idx s) (reads s ++ [(y, x)]) in
  if (0 <=? y) && (y <? rows (image s)) && (0 <=? x) && (x <? cols (image s))
  then Ok (elem (image s) y x) s'
  else Fault read_out_of_range s'.

(** [buffer[idx++] = v]. *)
Definition store (v : uint8_t) : M unit := fun s =>
  if (0 <=? idx s) && (idx s <? Z.of_nat (length (buffer s)))
  then Ok tt (mkState (image s) (<[Z.to_nat (idx s) := v]> (buffer s))
                      (idx s + 1) (reads s))
  else Fault write_out_of_range s.

(** ** [GetRawYUYVData] (lines 8-53) *)

(** Lines 25-49, the body of the inner loop. *)
Definition pair_body (y x : Z) : M unit :=
  p0 ← at_ y x;
  p1 ← at_ y (x + 1);
  let Y0 := static_cast_uint8 (RGB2Y (to_int (ch2 p0)) (to_int (ch1 p0)) (to_int (ch0 p0))) in
  let U0 := static_cast_uint8 (RGB2U (to_int (ch2 p0)) (to_int (ch1 p0)) (to_int (ch0 p0))) in
  let V0 := static_cast_uint8 (RGB2V (to_int (ch2 p0)) (to_int (ch1 p0)) (to_int (ch0 p0))) in
  let Y1 := static_cast_uint8 (RGB2Y (to_int (ch2 p1)) (to_int (ch1 p1)) (to_int (ch0 p1))) in
  let U1 := static_cast_uint8 (RGB2U (to_int (ch2 p1)) (to_int (ch1 p1)) (to_int (ch0 p1))) in
  let V1 := static_cast_uint8 (RGB2V (to_int (ch2 p1)) (to_int (ch1 p1)) (to_int (ch0 p1))) in
  let U := static_cast_uint8 ((to_int U0 + to_int U1) ÷ 2) in
  let V := static_cast_uint8 ((to_int V0 + to_int V1) ÷ 2) in
  store Y0 ;;
  store U ;;
  store Y1 ;;
  store V.

(** Line 23: [for (int x = ...; x < W; x += 2)], entered with the current
    value of [x]. *)
Fixpoint for_x (fuel : nat) (W y x : Z) : M unit :=
  if x <? W then
    match fuel with
    | O => raise out_of_fuel
    | S fuel' => pair_body y x ;; for_x fuel' W y (x + 2)
    end
  else mret tt.

(** Line 22: [for (int y = ...; y < H; ++y)], entered with the current
    value of [y]. *)
Fixpoint for_y (fuel : nat) (W H y : Z) : M unit :=
  if y <? H then
    match fuel with
    | O => raise out_of_fuel
    | S fuel' => for_x (Z.to_nat W) W y 0 ;; for_y fuel' W H (y + 1)
    end
  else mret tt.

(** The function body; its value is [(out_w, out_h)], the returned vector
    is the [buffer] of the final state. *)
Definition GetRawYUYVData_body : M (Z * Z) := fun s =>
  let W := cols (image s) in
  let H := rows (image s) in
  let W := if bool_decide (Z.rem W 2 ≠ 0) then W - 1 else W in
  let out_w := W in
  let out_h := H in
  (n ← int_mul W H;
   n ← int_mul n 2;
   vector_new n ;;
   set_idx 0 ;;
   for_y (Z.to_nat H) W H 0 ;;
   mret (out_w, out_h)) s.

(** The state in which the function is entered for the image [bgr]. *)
Definition entry (bgr : Mat) : state := mkState bgr [] 0 [].

(** A call: what the caller observes is either the fault, or the returned
    vector with the two output parameters. *)
Definition GetRawYUYVData (bgr : Mat) : fault + (list uint8_t * Z * Z) :=
  match GetRawYUYVData_body (entry bgr) with
  | Ok (out_w, out_h) s => inr (buffer s, out_w, out_h)
  | Fault e _ => inl e
  end.

(** ** What one pixel pair contributes *)

Definition Y_of (p : Vec3b) : uint8_t :=
  static_cast_uint8 (RGB2Y (to_int (ch2 p)) (to_int (ch1 p)) (to_int (ch0 p))).
Definition U_of (p : Vec3b) : uint8_t :=
  static_cast_uint8 (RGB2U (to_int (ch2 p)) (to_int (ch1 p)) (to_int (ch0 p))).
Definition V_of (p : Vec3b) : uint8_t :=
  static_cast_uint8 (RGB2V (to_int (ch2 p)) (to_int (ch1 p)) (to_int (ch0 p))).

(** Lines 42-43: [uint8_t U = (U0 + U1) / 2]. *)
Definition average (c0 c1 : uint8_t) : uint8_t :=
  static_cast_uint8 ((to_int c0 + to_int c1) ÷ 2).

(** Lines 46-49: the four bytes stored for the pair ([p0], [p1]). *)
Definition macropixel (p0 p1 : Vec3b) : list uint8_t :=
  [Y_of p0; average (U_of p0) (U_of p1); Y_of p1; average (V_of p0) (V_of p1)].

(** ** The expected contents of the buffer *)

(** [EvenWidth = Width] if [Width] is even, else [Width - 1]. *)
Definition EvenWidth (W : Z) : Z := if Z.even W then W else W - 1.

(** The group of the [k]-th pixel pair of row [y], i.e. pixels [2k], [2k+1]. *)
Definition group_at (bgr : Mat) (y : Z) (k : nat) : list uint8_t :=
  macropixel (elem bgr y (2 * Z.of_nat k)) (elem bgr y (2 * Z.of_nat k + 1)).

(** The groups of the pairs [from], ..., [from + cnt - 1] of row [y]. *)
Definition row_bytes (bgr : Mat) (y : Z) (from cnt : nat) : list uint8_t :=
  flat_map (group_at bgr y) (seq from cnt).

(** Rows [from], ..., [from + cnt - 1], each of [w] pairs. *)
Definition rows_bytes (bgr : Mat) (w : nat) (from cnt : nat) : list uint8_t :=
  flat_map (fun j => row_bytes bgr (Z.of_nat j) 0 w) (seq from cnt).

Definition image_bytes (bgr : Mat) : list uint8_t :=
  rows_bytes bgr (Z.to_nat (EvenWidth (cols bgr) / 2)) 0 (Z.to_nat (rows bgr)).

(** The accesses made for the same pairs, in the order they are made. *)
Definition group_reads (y : Z) (k : nat) : list (Z * Z) :=
  [(y, 2 * Z.of_nat k); (y, 2 * Z.of_nat k + 1)].

Definition row_reads (y : Z) (from cnt : nat) : list (Z * Z) :=
  flat_map (group_reads y) (seq from cnt).

Definition rows_reads (w : nat) (from cnt : nat) : list (Z * Z) :=
  flat_map (fun j => row_reads (Z.of_nat j) 0 w) (seq from cnt).

Definition image_reads (bgr : Mat) : list (Z * Z) :=
  rows_reads (Z.to_nat (EvenWidth (cols bgr) / 2)) 0 (Z.to_nat (rows bgr)).

(** ** What a call leaves behind *)

(** The bytes the call has stored in [buffer] when it ends, whether it
    returns or stops on a fault. *)
Definition emitted (bgr : Mat) : list uint8_t :=
  buffer (final_state (GetRawYUYVData_body (entry bgr))).

(** The element accesses the call has made when it ends. *)
Definition accessed (bgr : Mat) : list (Z * Z) :=
  reads (final_state (GetRawYUYVData_body (entry bgr))).

(** A computation that never stops for lack of fuel. *)
Definition fed {A : Type} (m : M A) : Prop :=
  forall s s', m s <> Fault out_of_fuel s'.

(** A computation that leaves the image of the state as it found it,
    however it ends. *)
Definition keeps_image {A : Type} (m : M A) : Prop :=
  forall s, image (final_state (m s)) = image s.

(** The header of [bgr] narrowed by one column, over the same elements
    (the region of interest [bgr(Rect(0, 0, cols - 1, rows))]). *)
Definition crop_last_column (bgr : Mat) : Mat :=
  mkMat (rows bgr) (cols bgr - 1) (elem bgr).

(** Two headers of the same dimensions over the same pixels, column
    [cols - skip] and beyond left out of the comparison. *)
Definition same_pixels (skip : Z) (a b : Mat) : Prop :=
  rows a = rows b /\ cols a = cols b /\
  forall y x, 0 <= y < rows a -> 0 <= x < cols a - skip -> elem a y x = elem b y x.

(** ** The statements of the specification about whole calls *)

(** The byte layout of the specification: the call returns a buffer that
    is the rows in order, each row its groups in order, so that the group
    of pixels [x], [x + 1] of row [y] sits at offset
    [(y * EvenWidth + x) * 2]. *)
Definition YUYV_layout (bgr : Mat) : Prop :=
  exists buf w h,
    GetRawYUYVData bgr = inr (buf, w, h) /\
    buf = image_bytes bgr /\
    forall y x,
      0 <= y < rows bgr -> 0 <= x < EvenWidth (cols bgr) -> Z.even x = true ->
      take 4 (drop (Z.to_nat ((y * EvenWidth (cols bgr) + x) * 2)) buf)
      = [Y_of (elem bgr y x);
         average (U_of (elem bgr y x)) (U_of (elem bgr y (x + 1)));
         Y_of (elem bgr y (x + 1));
         average (V_of (elem bgr y x)) (V_of (elem bgr y (x + 1)))].

(** The sizes of the specification: buffer length and returned
    dimensions. *)
Definition YUYV_sizes (bgr : Mat) : Prop :=
  exists buf w h,
    GetRawYUYVData bgr = inr (buf, w, h) /\
    h = rows bgr /\
    (Z.even (cols bgr) = true ->
       Z.of_nat (length buf) = cols bgr * rows bgr * 2) /\
    (Z.odd (cols bgr) = true ->
       w = cols bgr - 1 /\ Z.of_nat (length buf) = (cols bgr - 1) * rows bgr * 2).

(** The purity of the specification: the call yields a buffer with its
    dimensions, the image is afterwards the one the call was entered
    with, and encoding it once more yields the same bytes and the same
    dimensions. *)
Definition pure_encoding (bgr : Mat) : Prop :=
  exists buf w h,
    GetRawYUYVData bgr = inr (buf, w, h) /\
    image (final_state (GetRawYUYVData_body (entry bgr))) = bgr /\
    GetRawYUYVData (image (final_state (GetRawYUYVData_body (entry bgr))))
    = inr (buf, w, h).

(** ** Images used to exercise the statements *)

Definition black : Vec3b := mkVec3b x00 x00 x00.

Definition uniform (h w : Z) (p : Vec3b) : Mat := mkMat h w (fun _ _ => p).

Definition gradient (h w : Z) : Mat :=
  mkMat h w (fun y x =>
    mkVec3b (static_cast_uint8 (40 * x + 7 * y))
            (static_cast_uint8 (200 - 30 * x))
            (static_cast_uint8 (90 * y + 11 * x))).

(** [gradient 2 3] with another last column. *)
Definition gradient_marked : Mat :=
  mkMat 2 3 (fun y x => if x =? 2 then mkVec3b xff x00 xff else elem (gradient 2 3) y x).

(** [gradient 2 4] with other contents outside the image. *)
Definition gradient_padded : Mat :=
  mkMat 2 4 (fun y x => if x <? 4 then elem (gradient 2 4) y x else black).

(** 32768 x 32768 pixels: 2^31 bytes of YUYV. *)
Definition huge : Mat := uniform 32768 32768 black.

(** ** Sub-images and sub-buffers *)

(** [bgr(cv::Rect(x0, y0, w0, h0))]: a header of [h0] rows and [w0]
    columns over the same elements, its origin at column [x0] of row
    [y0]. *)
Definition roi (bgr : Mat) (x0 y0 w0 h0 : Z) : Mat :=
  mkMat h0 w0 (fun y x => elem bgr (y0 + y) (x0 + x)).

(** The same rectangle cut out of a buffer of [W] two-byte pixels per
    row: of each of the rows [y0], ..., [y0 + h0 - 1], the [2 * w0] bytes
    from byte [2 * x0] of the row on. *)
Definition crop_bytes (buf : list uint8_t) (W x0 y0 w0 h0 : Z) : list uint8_t :=
  flat_map
    (fun j => take (Z.to_nat (2 * w0))
                (drop (Z.to_nat (((y0 + Z.of_nat j) * W + x0) * 2)) buf))
    (seq 0 (Z.to_nat h0)).

(** A pixel without colour: the three channels equal. *)
Definition grey (p : Vec3b) : Prop := ch0 p = ch1 p /\ ch1 p = ch2 p.

(** [b] is [a] with the pixel at row [y0], column [x0] replaced. *)
Definition differ_at (y0 x0 : Z) (a b : Mat) : Prop :=
  rows a = rows b /\ cols a = cols b /\
  forall y x, 0 <= y < rows a -> 0 <= x < cols a ->
              (y, x) <> (y0, x0) -> elem a y x = elem b y x.

(** * Properties of the embedding *)

(** ** Bytes *)

Lemma to_int_range (b : uint8_t) : 0 <= to_int b <= 255.
Proof.
  unfold to_int. pose proof (Byte.to_N_bounded b). lia.
Qed.

Lemma to_int_static_cast (z : Z) : to_int (static_cast_uint8 z) = z mod 256.
Proof.
  unfold to_int, static_cast_uint8.
  pose proof (Z.mod_pos_bound z 256 ltac:(lia)) as Hz.
  destruct (Byte.of_N (Z.to_N (z mod 256))) as [b|] eqn:E; simpl.
  - apply Byte.to_of_N in E. rewrite E. lia.
  - apply Byte.of_N_None_iff in E. lia.
Qed.

Lemma static_cast_to_int (b : uint8_t) : static_cast_uint8 (to_int b) = b.
Proof.
  unfold static_cast_uint8, to_int.
  pose proof (Byte.to_N_bounded b).
  rewrite Z.mod_small by lia.
  rewrite N2Z.id, Byte.of_to_N. reflexivity.
Qed.

(** ** Running the primitives *)

Lemma store_run (v a : uint8_t) (pre post : list uint8_t) (s : state) :
  buffer s = pre ++ a :: post ->
  idx s = Z.of_nat (length pre) ->
  store v s = Ok tt (mkState (image s) ((pre ++ [v]) ++ post) (idx s + 1) (reads s)).
Proof.
  intros Hb Hi. unfold store. rewrite Hb, Hi, length_app. simpl length.
  replace ((0 <=? Z.of_nat (length pre)) &&
           (Z.of_nat (length pre) <? Z.of_nat (length pre + S (length post))))
    with true
    by (symmetry; apply andb_true_iff; split; [apply Z.leb_le|apply Z.ltb_lt]; lia).
  rewrite Nat2Z.id, insert_app_r_alt by lia.
  rewrite Nat.sub_diag. simpl. now rewrite <- app_assoc.
Qed.

Lemma at_run (y x : Z) (s : state) :
  0 <= y < rows (image s) -> 0 <= x < cols (image s) ->
  at_ y x s = Ok (elem (image s) y x)
                 (mkState (image s) (buffer s) (idx s) (reads s ++ [(y, x)])).
Proof.
  intros Hy Hx. unfold at_.
  replace ((0 <=? y) && (y <? rows (image s)) && (0 <=? x) && (x <? cols (image s)))
    with true; [reflexivity|].
  symmetry. rewrite !andb_true_iff, !Z.leb_le, !Z.ltb_lt. lia.
Qed.

Lemma pair_body_run (y x : Z) (s : state) (pre post : list uint8_t) (a b c d : uint8_t) :
  0 <= y < rows (image s) -> 0 <= x -> x + 1 < cols (image s) ->
  buffer s = pre ++ [a; b; c; d] ++ post ->
  idx s = Z.of_nat (length pre) ->
  pair_body y x s =
    Ok tt (mkState (image s)
             (pre ++ macropixel (elem (image s) y x) (elem (image s) y (x + 1)) ++ post)
             (idx s + 4)
             (reads s ++ [(y, x); (y, x + 1)])).
Proof.
  intros Hy Hx0 Hx1 Hb Hi. unfold pair_body, mbind, M_bind.
  rewrite at_run by lia.
  rewrite at_run by (simpl; lia). cbn [image buffer idx reads].
  set (p0 := elem (image s) y x). set (p1 := elem (image s) y (x + 1)).
  fold (Y_of p0) (U_of p0) (V_of p0) (Y_of p1) (U_of p1) (V_of p1).
  fold (average (U_of p0) (U_of p1)) (average (V_of p0) (V_of p1)).
  erewrite store_run; [|simpl; exact Hb|simpl; exact Hi].
  erewrite store_run; [|simpl; reflexivity|simpl; rewrite length_app; simpl; lia].
  erewrite store_run; [|simpl; reflexivity|simpl; rewrite !length_app; simpl; lia].
  erewrite store_run; [|simpl; reflexivity|simpl; rewrite !length_app; simpl; lia].
  cbn [image buffer idx reads]. f_equal. f_equal.
  - unfold macropixel. rewrite <- !app_assoc. reflexivity.
  - lia.
  - rewrite <- app_assoc. reflexivity.
Qed.

Lemma length_row_bytes bgr y from cnt :
  length (row_bytes bgr y from cnt) = (4 * cnt)%nat.
Proof.
  unfold row_bytes. revert from.
  induction cnt as [|cnt IH]; intros from; simpl; [reflexivity|].
  rewrite IH. lia.
Qed.

Lemma length_rows_bytes bgr w from cnt :
  length (rows_bytes bgr w from cnt) = (cnt * (4 * w))%nat.
Proof.
  unfold rows_bytes. revert from.
  induction cnt as [|cnt IH]; intros from; simpl; [reflexivity|].
  rewrite length_app, IH, length_row_bytes. lia.
Qed.

(** Splitting off the first [n] elements of a list long enough. *)
Lemma split_length {A : Type} (n m : nat) (l : list A) :
  length l = (n + m)%nat ->
  exists l1 l2, l = l1 ++ l2 /\ length l1 = n /\ length l2 = m.
Proof.
  intros Hl. exists (take n l), (drop n l). split; [|split].
  - now rewrite take_drop.
  - rewrite length_take. lia.
  - rewrite length_drop. lia.
Qed.

(** ** Running the loops *)

Lemma for_x_run (cnt : nat) :
  forall (fuel k : nat) (W y : Z) (s : state) (pre mid post : list uint8_t),
    0 <= y < rows (image s) ->
    W = 2 * Z.of_nat (k + cnt) ->
    W <= cols (image s) ->
    (cnt <= fuel)%nat ->
    buffer s = pre ++ mid ++ post ->
    length mid = (4 * cnt)%nat ->
    idx s = Z.of_nat (length pre) ->
    for_x fuel W y (2 * Z.of_nat k) s =
      Ok tt (mkState (image s)
               (pre ++ row_bytes (image s) y k cnt ++ post)
               (idx s + 4 * Z.of_nat cnt)
               (reads s ++ row_reads y k cnt)).
Proof.
  induction cnt as [|cnt IH]; intros fuel k W y s pre mid post Hy HW Hc Hf Hb Hm Hi.
  - destruct mid; [|discriminate]. simpl in Hb.
    replace (for_x fuel W y (2 * Z.of_nat k)) with (mret tt : M unit).
    + unfold mret, M_ret, row_bytes, row_reads. simpl.
      rewrite app_nil_r, Z.add_0_r, <- Hb. now destruct s.
    + destruct fuel; simpl;
        (replace (2 * Z.of_nat k <? W) with false; [reflexivity|]);
        symmetry; apply Z.ltb_ge; lia.
  - destruct fuel as [|fuel]; [lia|].
    destruct mid as [|a [|b [|c [|d mid]]]]; simpl in Hm; try lia.
    simpl for_x.
    replace (2 * Z.of_nat k <? W) with true by (symmetry; apply Z.ltb_lt; lia).
    unfold mbind at 1, M_bind at 1.
    rewrite (pair_body_run y (2 * Z.of_nat k) s pre (mid ++ post) a b c d)
      by (try lia; assumption).
    replace (2 * Z.of_nat k + 2) with (2 * Z.of_nat (S k)) by lia.
    rewrite (IH fuel (S k) W y _ (pre ++ group_at (image s) y k) mid post);
      cbn [image buffer idx reads]; try lia; try assumption.
    + f_equal. f_equal.
      * unfold row_bytes. simpl. now rewrite <- !app_assoc.
      * lia.
      * unfold row_reads. simpl. now rewrite <- app_assoc.
    + unfold group_at. now rewrite <- app_assoc.
    + rewrite length_app. unfold group_at, macropixel. simpl. lia.
Qed.

Lemma for_y_run (cnt : nat) :
  forall (fuel j w : nat) (W H : Z) (s : state) (pre mid post : list uint8_t),
    H = Z.of_nat (j + cnt) ->
    H <= rows (image s) ->
    W = 2 * Z.of_nat w ->
    W <= cols (image s) ->
    (cnt <= fuel)%nat ->
    buffer s = pre ++ mid ++ post ->
    length mid = (cnt * (4 * w))%nat ->
    idx s = Z.of_nat (length pre) ->
    for_y fuel W H (Z.of_nat j) s =
      Ok tt (mkState (image s)
               (pre ++ rows_bytes (image s) w j cnt ++ post)
               (idx s + Z.of_nat cnt * (4 * Z.of_nat w))
               (reads s ++ rows_reads w j cnt)).
Proof.
  induction cnt as [|cnt IH];
    intros fuel j w W H s pre mid post HH Hr HW Hc Hf Hb Hm Hi.
  - destruct mid; [|discriminate]. simpl in Hb.
    replace (for_y fuel W H (Z.of_nat j)) with (mret tt : M unit).
    + unfold mret, M_ret, rows_bytes, rows_reads. simpl.
      rewrite app_nil_r, Z.add_0_r, <- Hb. now destruct s.
    + destruct fuel; simpl;
        (replace (Z.of_nat j <? H) with false; [reflexivity|]);
        symmetry; apply Z.ltb_ge; lia.
  - destruct fuel as [|fuel]; [lia|].
    destruct (split_length (4 * w) (cnt * (4 * w)) mid) as (row & rest & -> & Hrow & Hrest);
      [simpl in Hm; lia|].
    simpl for_y.
    replace (Z.of_nat j <? H) with true by (symmetry; apply Z.ltb_lt; lia).
    unfold mbind at 1, M_bind at 1.
    change 0 with (2 * Z.of_nat 0).
    rewrite (for_x_run w (Z.to_nat W) 0 W (Z.of_nat j) s pre row (rest ++ post));
      try lia; try assumption; [|now rewrite <- app_assoc in Hb].
    replace (Z.of_nat j + 1) with (Z.of_nat (S j)) by lia.
    rewrite (IH fuel (S j) w W H _ (pre ++ row_bytes (image s) (Z.of_nat j) 0 w) rest post);
      cbn [image buffer idx reads]; try lia; try assumption.
    + f_equal. f_equal.
      * unfold rows_bytes. simpl. now rewrite <- !app_assoc.
      * lia.
      * unfold rows_reads. simpl. now rewrite <- app_assoc.
    + now rewrite <- app_assoc.
    + rewrite length_app, length_row_bytes. lia.
Qed.

(** ** Running the whole function *)

(** Line 13, [if (W % 2 != 0) W--], computes [EvenWidth]. *)
Lemma EvenWidth_code (W : Z) :
  (if bool_decide (Z.rem W 2 ≠ 0) then W - 1 else W) = EvenWidth W.
Proof.
  unfold EvenWidth. destruct (Z.even W) eqn:E.
  - apply Z.even_spec in E as [k ->].
    rewrite bool_decide_false; [reflexivity|].
    rewrite Z.mul_comm, Z.rem_mul; lia.
  - rewrite bool_decide_true; [reflexivity|]. intros Hr.
    pose proof (Z.quot_rem' W 2) as Hq. rewrite Hr, Z.add_0_r in Hq.
    rewrite Hq, Z.even_mul in E. discriminate.
Qed.

Lemma EvenWidth_half (W : Z) : EvenWidth W = 2 * (EvenWidth W / 2).
Proof.
  unfold EvenWidth. destruct (Z.even W) eqn:E.
  - apply Z.even_spec in E as [k ->]. rewrite Z.mul_comm, Z.div_mul by lia. lia.
  - rewrite <- Z.negb_odd in E. apply negb_false_iff, Z.odd_spec in E as [k ->].
    replace (2 * k + 1 - 1) with (k * 2) by lia. rewrite Z.div_mul by lia. lia.
Qed.

Lemma EvenWidth_bounds (W : Z) : 0 <= W -> 0 <= EvenWidth W <= W.
Proof.
  unfold EvenWidth. destruct (Z.even W) eqn:E; [lia|]. intros HW.
  assert (W <> 0) by (intros ->; discriminate). lia.
Qed.

(** With non-negative dimensions and a buffer size that fits [int], the
    function returns, having filled the buffer with [image_bytes]. *)
Lemma GetRawYUYVData_body_run (bgr : Mat) :
  0 <= cols bgr -> 0 <= rows bgr ->
  EvenWidth (cols bgr) * rows bgr * 2 <= INT_MAX ->
  GetRawYUYVData_body (entry bgr) =
    Ok (EvenWidth (cols bgr), rows bgr)
       (mkState bgr (image_bytes bgr)
                (EvenWidth (cols bgr) * rows bgr * 2) (image_reads bgr)).
Proof.
  intros HW HH Hfit. unfold GetRawYUYVData_body. cbn [entry image].
  rewrite EvenWidth_code.
  pose proof (EvenWidth_bounds _ HW) as HE.
  pose proof (EvenWidth_half (cols bgr)) as Hhalf.
  set (W := EvenWidth (cols bgr)) in *. set (H := rows bgr) in *.
  assert (0 <= W * H) by nia.
  unfold mbind at 1, M_bind at 1. unfold int_mul at 1.
  replace (in_int (W * H)) with true
    by (symmetry; unfold in_int, INT_MIN, INT_MAX in *;
        rewrite andb_true_iff, !Z.leb_le; lia).
  unfold mret at 1, M_ret at 1.
  unfold mbind at 1, M_bind at 1. unfold int_mul at 1.
  replace (in_int (W * H * 2)) with true
    by (symmetry; unfold in_int, INT_MIN, INT_MAX in *;
        rewrite andb_true_iff, !Z.leb_le; lia).
  unfold mret at 1, M_ret at 1.
  unfold mbind at 1, M_bind at 1. unfold vector_new.
  replace (W * H * 2 <? 0) with false by (symmetry; apply Z.ltb_ge; lia).
  unfold mbind at 1, M_bind at 1. unfold set_idx. cbn [image buffer idx reads].
  unfold mbind at 1, M_bind at 1.
  change 0 with (Z.of_nat 0) at 1.
  assert (Z.to_nat (W * H * 2) = (Z.to_nat H * (4 * Z.to_nat (W / 2)))%nat) as Hn by nia.
  rewrite (for_y_run (Z.to_nat H) (Z.to_nat H) 0 (Z.to_nat (W / 2)) W H _
             [] (replicate (Z.to_nat (W * H * 2)) x00) []);
    cbn [image buffer idx reads entry]; try lia.
  - unfold mret, M_ret, image_bytes, image_reads. fold W H.
    f_equal. f_equal; [apply app_nil_r|lia].
  - cbn [app]. now rewrite app_nil_r.
  - rewrite length_replicate. exact Hn.
  - reflexivity.
Qed.

(** A buffer size beyond [INT_MAX] stops the function before the vector
    exists. *)
Lemma GetRawYUYVData_body_overflow (bgr : Mat) :
  0 <= cols bgr -> 0 <= rows bgr ->
  INT_MAX < EvenWidth (cols bgr) * rows bgr * 2 ->
  GetRawYUYVData_body (entry bgr) = Fault signed_overflow (entry bgr).
Proof.
  intros HW HH Hbig. unfold GetRawYUYVData_body. cbn [entry image].
  rewrite EvenWidth_code. fold (entry bgr).
  set (W := EvenWidth (cols bgr)) in *. set (H := rows bgr) in *.
  unfold mbind at 1, M_bind at 1. unfold int_mul at 1.
  destruct (in_int (W * H)) eqn:E1; [|reflexivity].
  unfold mret at 1, M_ret at 1.
  unfold mbind at 1, M_bind at 1. unfold int_mul at 1.
  replace (in_int (W * H * 2)) with false; [reflexivity|].
  symmetry. unfold in_int. apply andb_false_iff. right. apply Z.leb_gt. lia.
Qed.

Lemma GetRawYUYVData_returns (bgr : Mat) :
  0 <= cols bgr -> 0 <= rows bgr ->
  EvenWidth (cols bgr) * rows bgr * 2 <= INT_MAX ->
  GetRawYUYVData bgr = inr (image_bytes bgr, EvenWidth (cols bgr), rows bgr).
Proof.
  intros HW HH Hfit. unfold GetRawYUYVData.
  now rewrite GetRawYUYVData_body_run.
Qed.

Lemma GetRawYUYVData_overflows (bgr : Mat) :
  0 <= cols bgr -> 0 <= rows bgr ->
  INT_MAX < EvenWidth (cols bgr) * rows bgr * 2 ->
  GetRawYUYVData bgr = inl signed_overflow.
Proof.
  intros HW HH Hbig. unfold GetRawYUYVData.
  now rewrite GetRawYUYVData_body_overflow.
Qed.

(** ** Blocks of a concatenation *)

Section Blocks.
Context {A : Type} (f : nat -> list A) (n : nat).
Hypothesis f_length : forall j, length (f j) = n.

(** The [j]-th block of [n] elements is [f (from + j)]. *)
Lemma block_flat_map_seq (cnt : nat) :
  forall from j, (j < cnt)%nat ->
    take n (drop (j * n) (flat_map f (seq from cnt))) = f (from + j)%nat.
Proof.
  induction cnt as [|cnt IH]; intros from j Hj; [lia|].
  simpl flat_map. destruct j as [|j].
  - simpl. rewrite Nat.add_0_r. now apply take_app_length'.
  - replace (S j * n)%nat with (n + j * n)%nat by lia.
    rewrite drop_app_add' by (symmetry; apply f_length).
    rewrite IH by lia. f_equal. lia.
Qed.

(** A window that stays inside the [j]-th block. *)
Lemma window_flat_map_seq (cnt from j b m : nat) :
  (j < cnt)%nat -> (b + m <= n)%nat ->
  take m (drop (j * n + b) (flat_map f (seq from cnt)))
  = take m (drop b (f (from + j)%nat)).
Proof.
  intros Hj Hbm.
  rewrite <- (block_flat_map_seq cnt from j Hj).
  rewrite <- drop_drop.
  rewrite !take_drop_commute, take_take.
  now replace (Nat.min (j * n + (b + m)) (j * n + n))
    with (j * n + (b + m))%nat by lia.
Qed.
End Blocks.

(** The bytes of pair [k] of row [y], found in the whole buffer. *)
Lemma image_bytes_group (bgr : Mat) (y k : nat) :
  (y < Z.to_nat (rows bgr))%nat ->
  (k < Z.to_nat (EvenWidth (cols bgr) / 2))%nat ->
  take 4 (drop (y * (4 * Z.to_nat (EvenWidth (cols bgr) / 2)) + k * 4) (image_bytes bgr))
  = group_at bgr (Z.of_nat y) k.
Proof.
  intros Hy Hk. unfold image_bytes, rows_bytes.
  rewrite (window_flat_map_seq _ (4 * Z.to_nat (EvenWidth (cols bgr) / 2)));
    [|intros j; apply length_row_bytes|assumption|lia].
  simpl (0 + y)%nat. unfold row_bytes.
  replace (k * 4)%nat with (k * 4 + 0)%nat by lia.
  rewrite (window_flat_map_seq _ 4); [|reflexivity|assumption|lia].
  reflexivity.
Qed.

Lemma length_image_bytes (bgr : Mat) :
  0 <= cols bgr -> 0 <= rows bgr ->
  Z.of_nat (length (image_bytes bgr)) = EvenWidth (cols bgr) * rows bgr * 2.
Proof.
  intros HW HH. unfold image_bytes. rewrite length_rows_bytes.
  pose proof (EvenWidth_bounds _ HW). pose proof (EvenWidth_half (cols bgr)).
  nia.
Qed.

(** Any aligned group of the buffer is the group of some pixel pair. *)
Lemma image_bytes_aligned (bgr : Mat) (i : nat) :
  (4 * i + 4 <= length (image_bytes bgr))%nat ->
  exists (y k : nat),
    (y < Z.to_nat (rows bgr))%nat /\
    (k < Z.to_nat (EvenWidth (cols bgr) / 2))%nat /\
    take 4 (drop (4 * i) (image_bytes bgr)) = group_at bgr (Z.of_nat y) k.
Proof.
  intros Hi.
  assert (length (image_bytes bgr)
          = (Z.to_nat (rows bgr) * (4 * Z.to_nat (EvenWidth (cols bgr) / 2)))%nat) as Hl
    by (unfold image_bytes; apply length_rows_bytes).
  set (w := Z.to_nat (EvenWidth (cols bgr) / 2)) in *.
  set (h := Z.to_nat (rows bgr)) in *.
  assert (w <> 0)%nat as Hw by (intros E; rewrite E in Hl; lia).
  exists (i / w)%nat, (i mod w)%nat.
  pose proof (Nat.div_mod_eq i w) as Hdm.
  pose proof (Nat.mod_upper_bound i w Hw) as Hmod.
  assert (i / w < h)%nat as Hy.
  { apply Nat.Div0.div_lt_upper_bound. nia. }
  split; [exact Hy|]. split; [exact Hmod|].
  rewrite <- (image_bytes_group bgr (i / w) (i mod w)) by assumption.
  fold w. f_equal. f_equal. lia.
Qed.

Lemma emitted_returned (bgr : Mat) buf w h :
  GetRawYUYVData bgr = inr (buf, w, h) -> buf = emitted bgr.
Proof.
  unfold GetRawYUYVData, emitted.
  destruct (GetRawYUYVData_body (entry bgr)) as [[ow oh] s|e s]; simpl; congruence.
Qed.

(** With non-negative dimensions the call either returns the full buffer
    or stops on the size computation, before any access. *)
Lemma call_cases (bgr : Mat) :
  0 <= cols bgr -> 0 <= rows bgr ->
  (EvenWidth (cols bgr) * rows bgr * 2 <= INT_MAX /\
   emitted bgr = image_bytes bgr /\ accessed bgr = image_reads bgr /\
   GetRawYUYVData bgr = inr (image_bytes bgr, EvenWidth (cols bgr), rows bgr))
  \/
  (INT_MAX < EvenWidth (cols bgr) * rows bgr * 2 /\
   emitted bgr = [] /\ accessed bgr = [] /\
   GetRawYUYVData bgr = inl signed_overflow).
Proof.
  intros HW HH. unfold emitted, accessed.
  destruct (Z_le_gt_dec (EvenWidth (cols bgr) * rows bgr * 2) INT_MAX) as [Hfit|Hbig].
  - left. rewrite GetRawYUYVData_body_run by assumption.
    rewrite GetRawYUYVData_returns by assumption. auto.
  - right. rewrite GetRawYUYVData_body_overflow by (try assumption; lia).
    rewrite GetRawYUYVData_overflows by (try assumption; lia).
    split; [lia|auto].
Qed.

(** The buffer is a function of the pixels in the first [2 * w] columns
    of the rows written. *)
Lemma rows_bytes_ext (a b : Mat) (w : nat) (cnt : nat) :
  forall from,
    (forall y x, Z.of_nat from <= y < Z.of_nat (from + cnt) ->
                 0 <= x < 2 * Z.of_nat w -> elem a y x = elem b y x) ->
    rows_bytes a w from cnt = rows_bytes b w from cnt.
Proof.
  unfold rows_bytes.
  induction cnt as [|cnt IH]; intros from Hab; simpl; [reflexivity|].
  f_equal.
  - unfold row_bytes.
    assert (forall n k0, (k0 + n <= w)%nat ->
              flat_map (group_at a (Z.of_nat from)) (seq k0 n)
              = flat_map (group_at b (Z.of_nat from)) (seq k0 n)) as Hrow.
    { induction n as [|n IHn]; intros k0 Hk; simpl; [reflexivity|].
      rewrite IHn by lia.
      rewrite (Hab _ (2 * Z.of_nat k0)), (Hab _ (2 * Z.of_nat k0 + 1)) by lia.
      reflexivity. }
    apply Hrow. lia.
  - apply IH. intros y x Hy Hx. apply Hab; lia.
Qed.

(** Every access lies in a row written and in the first [2 * w] columns. *)
Lemma rows_reads_bounds (w cnt : nat) :
  forall from y x,
    In (y, x) (rows_reads w from cnt) ->
    Z.of_nat from <= y < Z.of_nat (from + cnt) /\ 0 <= x < 2 * Z.of_nat w.
Proof.
  unfold rows_reads, row_reads. intros from y x Hin.
  apply in_flat_map in Hin as (j & Hj & Hin).
  apply in_flat_map in Hin as (k & Hk & Hin).
  apply in_seq in Hj. apply in_seq in Hk.
  unfold group_reads in Hin. simpl in Hin.
  destruct Hin as [E|[E|[]]]; inversion E; subst; lia.
Qed.

Lemma average_same (c : uint8_t) : average c c = c.
Proof.
  unfold average. replace (to_int c + to_int c) with (to_int c * 2) by lia.
  rewrite Z.quot_mul by lia. apply static_cast_to_int.
Qed.

Lemma to_int_average (c0 c1 : uint8_t) :
  to_int (average c0 c1) = (to_int c0 + to_int c1) / 2.
Proof.
  unfold average. rewrite to_int_static_cast.
  pose proof (to_int_range c0). pose proof (to_int_range c1).
  rewrite Z.quot_div_nonneg by lia.
  apply Z.mod_small.
  split; [apply Z.div_pos; lia|apply Z.div_lt_upper_bound; lia].
Qed.

(** The call's result is a function of the dimensions it works with and
    of the pixels in the columns below [EvenWidth]. *)
Lemma GetRawYUYVData_ext (a b : Mat) :
  0 <= cols a -> 0 <= cols b -> 0 <= rows a ->
  rows a = rows b ->
  EvenWidth (cols a) = EvenWidth (cols b) ->
  (forall y x, 0 <= y < rows a -> 0 <= x < EvenWidth (cols a) ->
               elem a y x = elem b y x) ->
  GetRawYUYVData a = GetRawYUYVData b.
Proof.
  intros Ha Hb Hr Hrows Hw Hpx.
  destruct (Z_le_gt_dec (EvenWidth (cols a) * rows a * 2) INT_MAX) as [Hfit|Hbig].
  - rewrite (GetRawYUYVData_returns a) by assumption.
    rewrite (GetRawYUYVData_returns b) by (rewrite <- ?Hrows, <- ?Hw; assumption).
    rewrite <- Hrows, <- Hw. f_equal. f_equal. f_equal.
    unfold image_bytes. rewrite <- Hrows, <- Hw.
    apply rows_bytes_ext. intros y x Hy Hx.
    pose proof (EvenWidth_half (cols a)). pose proof (EvenWidth_bounds _ Ha).
    apply Hpx; lia.
  - rewrite (GetRawYUYVData_overflows a) by (try assumption; lia).
    rewrite (GetRawYUYVData_overflows b) by (rewrite <- ?Hrows, <- ?Hw; try assumption; lia).
    reflexivity.
Qed.

(** Every aligned group of what the call has stored is the group of two
    neighbouring pixels inside the image. *)
Lemma emitted_group (bgr : Mat) (i : nat) :
  0 <= cols bgr -> 0 <= rows bgr ->
  (4 * i + 4 <= length (emitted bgr))%nat ->
  exists y x,
    0 <= y < rows bgr /\ 0 <= x /\ x + 1 < cols bgr /\
    take 4 (drop (4 * i) (emitted bgr))
    = macropixel (elem bgr y x) (elem bgr y (x + 1)).
Proof.
  intros HW HH Hi.
  destruct (call_cases bgr HW HH) as [(_ & He & _)|(_ & He & _)];
    rewrite He in *; [|simpl in Hi; lia].
  destruct (image_bytes_aligned bgr i Hi) as (y & k & Hy & Hk & Hg).
  pose proof (EvenWidth_half (cols bgr)). pose proof (EvenWidth_bounds _ HW).
  exists (Z.of_nat y), (2 * Z.of_nat k).
  repeat split; try lia. exact Hg.
Qed.

(** *** The image is only read *)

Lemma keeps_image_bind {A B : Type} (m : M A) (f : A -> M B) :
  keeps_image m -> (forall a, keeps_image (f a)) -> keeps_image (m ≫= f).
Proof.
  intros Hm Hf s. unfold mbind, M_bind. specialize (Hm s).
  destruct (m s) as [a s'|e s']; simpl in *; [|assumption].
  now rewrite Hf.
Qed.

Lemma keeps_image_ret {A : Type} (a : A) : keeps_image (mret a : M A).
Proof. intros s. reflexivity. Qed.

Lemma keeps_image_raise {A : Type} (e : fault) : keeps_image (raise e : M A).
Proof. intros s. reflexivity. Qed.

Lemma keeps_image_at (y x : Z) : keeps_image (at_ y x).
Proof. intros s. unfold at_. now destruct (_ && _). Qed.

Lemma keeps_image_store (v : uint8_t) : keeps_image (store v).
Proof. intros s. unfold store. now destruct (_ && _). Qed.

Lemma keeps_image_pair_body (y x : Z) : keeps_image (pair_body y x).
Proof.
  unfold pair_body.
  repeat (apply keeps_image_bind; [|intros ?]);
    auto using keeps_image_at, keeps_image_store.
Qed.

Lemma keeps_image_for_x (fuel : nat) (W y : Z) :
  forall x, keeps_image (for_x fuel W y x).
Proof.
  induction fuel as [|fuel IH]; intros x; simpl; destruct (x <? W);
    auto using keeps_image_ret, keeps_image_raise.
  apply keeps_image_bind; [apply keeps_image_pair_body|intros _; apply IH].
Qed.

Lemma keeps_image_for_y (fuel : nat) (W H : Z) :
  forall y, keeps_image (for_y fuel W H y).
Proof.
  induction fuel as [|fuel IH]; intros y; simpl; destruct (y <? H);
    auto using keeps_image_ret, keeps_image_raise.
  apply keeps_image_bind; [apply keeps_image_for_x|intros _; apply IH].
Qed.

Lemma keeps_image_GetRawYUYVData_body : keeps_image GetRawYUYVData_body.
Proof.
  intros s. unfold GetRawYUYVData_body.
  repeat (apply keeps_image_bind; [|intros ?]);
    auto using keeps_image_ret, keeps_image_for_y.
  - unfold int_mul. destruct (in_int _); auto using keeps_image_ret, keeps_image_raise.
  - unfold int_mul. destruct (in_int _); auto using keeps_image_ret, keeps_image_raise.
  - intros s'. unfold vector_new. now destruct (_ <? 0).
  - intros s'. reflexivity.
Qed.

(** *** The loops end on their condition *)

Lemma fed_bind {A B : Type} (m : M A) (f : A -> M B) :
  fed m -> (forall a, fed (f a)) -> fed (m ≫= f).
Proof.
  intros Hm Hf s s'. unfold mbind, M_bind.
  destruct (m s) as [a s1|e s1] eqn:E; [apply Hf|].
  intros F. apply (Hm s s'). congruence.
Qed.

Lemma fed_ret {A : Type} (a : A) : fed (mret a : M A).
Proof. intros s s'. discriminate. Qed.

Lemma fed_at (y x : Z) : fed (at_ y x).
Proof. intros s s'. unfold at_. destruct (_ && _); discriminate. Qed.

Lemma fed_store (v : uint8_t) : fed (store v).
Proof. intros s s'. unfold store. destruct (_ && _); discriminate. Qed.

Lemma fed_int_mul (a b : Z) : fed (int_mul a b).
Proof. intros s s'. unfold int_mul. destruct (in_int _); discriminate. Qed.

Lemma fed_pair_body (y x : Z) : fed (pair_body y x).
Proof.
  unfold pair_body.
  repeat (apply fed_bind; [|intros ?]); auto using fed_at, fed_store.
Qed.

(** One unit of fuel per iteration is enough: an iteration moves [x] two
    columns closer to [W]. *)
Lemma fed_for_x (fuel : nat) (W y : Z) :
  forall x, W - x <= Z.of_nat fuel -> fed (for_x fuel W y x).
Proof.
  induction fuel as [|fuel IH]; intros x Hx; simpl;
    destruct (x <? W) eqn:E; try apply fed_ret.
  - apply Z.ltb_lt in E. lia.
  - apply fed_bind; [apply fed_pair_body|intros _; apply IH; lia].
Qed.

Lemma fed_for_y (fuel : nat) (W H : Z) :
  forall y, H - y <= Z.of_nat fuel -> fed (for_y fuel W H y).
Proof.
  induction fuel as [|fuel IH]; intros y Hy; simpl;
    destruct (y <? H) eqn:E; try apply fed_ret.
  - apply Z.ltb_lt in E. lia.
  - apply fed_bind; [apply fed_for_x; lia|intros _; apply IH; lia].
Qed.

(** Whatever the header holds, neither loop of the call stops for lack of
    fuel: the fuel the model hands them covers their iterations. *)
Lemma GetRawYUYVData_fed (bgr : Mat) : GetRawYUYVData bgr <> inl out_of_fuel.
Proof.
  assert (fed GetRawYUYVData_body) as Hfed.
  { intros s. unfold GetRawYUYVData_body.
    repeat (apply fed_bind; [|intros ?]);
      auto using fed_ret, fed_int_mul.
    - intros s1 s2. unfold vector_new. destruct (_ <? 0); discriminate.
    - intros s1 s2. discriminate.
    - apply fed_for_y. lia. }
  unfold GetRawYUYVData. specialize (Hfed (entry bgr)).
  destruct (GetRawYUYVData_body (entry bgr)) as [[w h] s|e s]; [discriminate|].
  intros F. apply (Hfed s). congruence.
Qed.

(** ** The embedding at work *)

(** Row 0 of [gradient 2 3] starts with the pixels (B, G, R) = (0, 200, 0)
    and (40, 170, 11); its first luma byte is
    ((129 * 200 + 128) >> 8) + 16 = 101 + 16 = 117. *)
Example GetRawYUYVData_gradient :
  GetRawYUYVData (gradient 2 3)
  = inr ([x75; x52; x6c; x3d; x8d; x48; x84; x63], 2, 2).
Proof. vm_compute. reflexivity. Qed.

Example accessed_gradient :
  accessed (gradient 2 3) = [(0, 0); (0, 1); (1, 0); (1, 1)].
Proof. vm_compute. reflexivity. Qed.

(** The narrowing wraps, it does not saturate: for (R, G, B) = (255, 255, 0)
    the shifted sum is -112, narrowed to 144; the lambda returns 272 and
    the byte stored is 16. *)
Example RGB2U_wraps :
  Z.shiftr (-38 * 255 - 74 * 255 + 112 * 0 + 128) 8 = (-112) /\
  to_int (static_cast_uint8 (-112)) = 144 /\
  RGB2U 255 255 0 = 272 /\
  to_int (U_of (mkVec3b x00 xff xff)) = 16.
Proof. repeat split; vm_compute; reflexivity. Qed.

Example GetRawYUYVData_huge : GetRawYUYVData huge = inl signed_overflow.
Proof. vm_compute. reflexivity. Qed.

(** * The claims of the specification *)

(** C1, as stated, fails at the 32768 x 32768 image: its buffer would hold
    2^31 bytes, the size [W * H * 2] is computed in [int], and the call
    stops there; no byte is laid out. *)
Lemma C1_layout_counterexample :
  0 <= cols huge /\ 0 <= rows huge /\ ~ YUYV_layout huge.
Proof.
  split; [vm_compute; discriminate|]. split; [vm_compute; discriminate|].
  intros (buf & w & h & E & _).
  assert (GetRawYUYVData huge = inl signed_overflow) as F by (vm_compute; reflexivity).
  rewrite F in E. discriminate.
Qed.

(** C1 (amended): for every input image of width W and height H whose
    buffer size [EvenWidth * H * 2] fits the [int] it is computed in (at
    most 2^31 - 1), the encoder returns the bytes in row-major order, each
    row before the next and the groups of a row left to right, so that for
    each row y and each even x in [0, EvenWidth) the four bytes at offset
    [(y * EvenWidth + x) * 2] are [Y(x,y); U_avg; Y(x+1,y); V_avg]. *)
Theorem C1_layout (bgr : Mat) :
  0 <= cols bgr -> 0 <= rows bgr ->
  EvenWidth (cols bgr) * rows bgr * 2 <= INT_MAX ->
  YUYV_layout bgr.
Proof.
  intros HW HH Hfit.
  exists (image_bytes bgr), (EvenWidth (cols bgr)), (rows bgr).
  split; [now apply GetRawYUYVData_returns|]. split; [reflexivity|].
  intros y x Hy Hx Hev.
  apply Z.even_spec in Hev as [k ->].
  pose proof (EvenWidth_half (cols bgr)) as Hhalf.
  replace (Z.to_nat ((y * EvenWidth (cols bgr) + 2 * k) * 2))
    with (Z.to_nat y * (4 * Z.to_nat (EvenWidth (cols bgr) / 2)) + Z.to_nat k * 4)%nat
    by nia.
  rewrite image_bytes_group by lia.
  unfold group_at, macropixel. now rewrite !Z2Nat.id by lia.
Qed.

Lemma C1_layout_witness :
  0 <= cols (gradient 2 3) /\ 0 <= rows (gradient 2 3) /\
  EvenWidth (cols (gradient 2 3)) * rows (gradient 2 3) * 2 <= INT_MAX /\
  YUYV_layout (gradient 2 3).
Proof.
  assert (0 <= cols (gradient 2 3)) as HW by (simpl; lia).
  assert (0 <= rows (gradient 2 3)) as HH by (simpl; lia).
  assert (EvenWidth (cols (gradient 2 3)) * rows (gradient 2 3) * 2 <= INT_MAX) as Hfit
    by (vm_compute; discriminate).
  repeat split; try assumption.
  exact (C1_layout (gradient 2 3) HW HH Hfit).
Defined.

(** C2: for every pixel with 8-bit components R, G, B the weighted sum
    plus 128 is formed exactly (it fits [int]), shifted right by 8
    arithmetically (the floor of the division by 2^8), narrowed modulo 256
    without saturation, the offset 16 (Y) or 128 (U, V) is added after
    that, and the byte stored is that value modulo 256. *)
Theorem C2_conversion (p : Vec3b) :
  let R := to_int (ch2 p) in
  let G := to_int (ch1 p) in
  let B := to_int (ch0 p) in
  let y := 66 * R + 129 * G + 25 * B + 128 in
  let u := -38 * R - 74 * G + 112 * B + 128 in
  let v := 112 * R - 94 * G - 18 * B + 128 in
  (in_int y = true /\
   RGB2Y R G B = (y / 2 ^ 8) mod 256 + 16 /\
   to_int (Y_of p) = ((y / 2 ^ 8) mod 256 + 16) mod 256) /\
  (in_int u = true /\
   RGB2U R G B = (u / 2 ^ 8) mod 256 + 128 /\
   to_int (U_of p) = ((u / 2 ^ 8) mod 256 + 128) mod 256) /\
  (in_int v = true /\
   RGB2V R G B = (v / 2 ^ 8) mod 256 + 128 /\
   to_int (V_of p) = ((v / 2 ^ 8) mod 256 + 128) mod 256).
Proof.
  intros R G B y u v.
  pose proof (to_int_range (ch2 p)). pose proof (to_int_range (ch1 p)).
  pose proof (to_int_range (ch0 p)).
  unfold Y_of, U_of, V_of, RGB2Y, RGB2U, RGB2V.
  fold R G B. fold y u v.
  rewrite !to_int_static_cast, !Z.shiftr_div_pow2 by lia.
  unfold in_int, INT_MIN, INT_MAX.
  repeat split; try reflexivity;
    rewrite andb_true_iff, !Z.leb_le; subst y u v; lia.
Qed.

(** C3: for every horizontal pixel pair the loop body stores exactly four
    bytes, [Y0; U; Y1; V]: both luma bytes, and one chroma byte each with
    U = (U0 + U1) / 2 and V = (V0 + V1) / 2, the floor of half the sum of
    the two pixels' own U and V bytes. *)
Theorem C3_chroma_average (y x : Z) (s : state) (pre post : list uint8_t)
    (a b c d : uint8_t) :
  0 <= y < rows (image s) -> 0 <= x -> x + 1 < cols (image s) ->
  buffer s = pre ++ [a; b; c; d] ++ post ->
  idx s = Z.of_nat (length pre) ->
  let p0 := elem (image s) y x in
  let p1 := elem (image s) y (x + 1) in
  exists U V : uint8_t,
    pair_body y x s =
      Ok tt (mkState (image s) (pre ++ [Y_of p0; U; Y_of p1; V] ++ post)
                     (idx s + 4) (reads s ++ [(y, x); (y, x + 1)])) /\
    to_int U = (to_int (U_of p0) + to_int (U_of p1)) / 2 /\
    to_int V = (to_int (V_of p0) + to_int (V_of p1)) / 2.
Proof.
  intros Hy Hx0 Hx1 Hb Hi p0 p1.
  exists (average (U_of p0) (U_of p1)), (average (V_of p0) (V_of p1)).
  split; [|split; apply to_int_average].
  now rewrite (pair_body_run y x s pre post a b c d).
Qed.

Lemma C3_chroma_average_witness :
  let s := mkState (gradient 2 3) (replicate 8 x00) 4 [] in
  let p0 := elem (gradient 2 3) 1 0 in
  let p1 := elem (gradient 2 3) 1 1 in
  (0 <= 1 < rows (image s)) /\ 0 <= 0 /\ 0 + 1 < cols (image s) /\
  buffer s = replicate 4 x00 ++ [x00; x00; x00; x00] ++ [] /\
  idx s = Z.of_nat (length (replicate 4 x00)) /\
  exists U V : uint8_t,
    pair_body 1 0 s =
      Ok tt (mkState (image s) (replicate 4 x00 ++ [Y_of p0; U; Y_of p1; V] ++ [])
                     (idx s + 4) (reads s ++ [(1, 0); (1, 0 + 1)])) /\
    to_int U = (to_int (U_of p0) + to_int (U_of p1)) / 2 /\
    to_int V = (to_int (V_of p0) + to_int (V_of p1)) / 2.
Proof.
  intros s p0 p1.
  assert (0 <= 1 < rows (image s)) as Hy by (simpl; lia).
  assert (0 <= 0) as Hx0 by lia.
  assert (0 + 1 < cols (image s)) as Hx1 by (simpl; lia).
  assert (buffer s = replicate 4 x00 ++ [x00; x00; x00; x00] ++ []) as Hb by reflexivity.
  assert (idx s = Z.of_nat (length (replicate 4 x00))) as Hi by reflexivity.
  repeat (split; [assumption|]).
  exact (C3_chroma_average 1 0 s (replicate 4 x00) [] x00 x00 x00 x00 Hy Hx0 Hx1 Hb Hi).
Defined.

(** C4, as stated, fails at the 32768 x 32768 image (even width): no
    buffer of length [Width * Height * 2] = 2^31 is produced, the size
    leaves the range of [int]. *)
Lemma C4_sizes_counterexample :
  Z.even (cols huge) = true /\ 0 <= cols huge /\ 0 <= rows huge /\ ~ YUYV_sizes huge.
Proof.
  split; [reflexivity|].
  split; [vm_compute; discriminate|]. split; [vm_compute; discriminate|].
  intros (buf & w & h & E & _).
  assert (GetRawYUYVData huge = inl signed_overflow) as F by (vm_compute; reflexivity).
  rewrite F in E. discriminate.
Qed.

(** C4 (amended): for every image with even Width >= 0 and Height >= 0
    whose buffer size fits [int] (at most 2^31 - 1) the output buffer has
    length [Width * Height * 2]; for every such image with odd Width the
    returned width is [Width - 1] and the buffer length is
    [(Width - 1) * Height * 2]; the returned height is the input Height. *)
Theorem C4_sizes (bgr : Mat) :
  0 <= cols bgr -> 0 <= rows bgr ->
  EvenWidth (cols bgr) * rows bgr * 2 <= INT_MAX ->
  YUYV_sizes bgr.
Proof.
  intros HW HH Hfit.
  exists (image_bytes bgr), (EvenWidth (cols bgr)), (rows bgr).
  split; [now apply GetRawYUYVData_returns|]. split; [reflexivity|].
  rewrite length_image_bytes by assumption. unfold EvenWidth.
  rewrite <- Z.negb_odd.
  split; intros E; rewrite ?E; simpl.
  - destruct (Z.odd (cols bgr)); [discriminate|reflexivity].
  - split; reflexivity.
Qed.

Lemma C4_sizes_witness :
  0 <= cols (gradient 2 3) /\ 0 <= rows (gradient 2 3) /\
  EvenWidth (cols (gradient 2 3)) * rows (gradient 2 3) * 2 <= INT_MAX /\
  YUYV_sizes (gradient 2 3).
Proof.
  assert (0 <= cols (gradient 2 3)) as HW by (simpl; lia).
  assert (0 <= rows (gradient 2 3)) as HH by (simpl; lia).
  assert (EvenWidth (cols (gradient 2 3)) * rows (gradient 2 3) * 2 <= INT_MAX) as Hfit
    by (vm_compute; discriminate).
  repeat split; try assumption.
  exact (C4_sizes (gradient 2 3) HW HH Hfit).
Defined.

(** C5: for every Width >= 0 and Height >= 0 the call never faults on a
    read, and every element access (y, x) it makes has 0 <= y < Height and
    0 <= x < Width; when Width is odd, x < Width - 1: the last column is
    never read. *)
Theorem C5_reads_in_bounds (bgr : Mat) :
  0 <= cols bgr -> 0 <= rows bgr ->
  GetRawYUYVData bgr <> inl read_out_of_range /\
  forall y x, In (y, x) (accessed bgr) ->
    0 <= y < rows bgr /\ 0 <= x < cols bgr /\
    (Z.odd (cols bgr) = true -> x < cols bgr - 1).
Proof.
  intros HW HH.
  destruct (call_cases bgr HW HH) as [(_ & _ & Ha & E)|(_ & _ & Ha & E)];
    rewrite E, Ha; (split; [discriminate|]); intros y x Hin; [|destruct Hin].
  apply rows_reads_bounds in Hin as [Hy Hx].
  pose proof (EvenWidth_half (cols bgr)) as Hhalf.
  pose proof (EvenWidth_bounds _ HW) as Hb.
  assert (0 <= x < EvenWidth (cols bgr)) as Hx' by lia.
  repeat split; try lia.
  intros Hodd. unfold EvenWidth in Hx'. rewrite <- Z.negb_odd, Hodd in Hx'.
  simpl in Hx'. lia.
Qed.

Lemma C5_reads_in_bounds_witness :
  0 <= cols (gradient 2 3) /\ 0 <= rows (gradient 2 3) /\
  GetRawYUYVData (gradient 2 3) <> inl read_out_of_range /\
  forall y x, In (y, x) (accessed (gradient 2 3)) ->
    0 <= y < rows (gradient 2 3) /\ 0 <= x < cols (gradient 2 3) /\
    (Z.odd (cols (gradient 2 3)) = true -> x < cols (gradient 2 3) - 1).
Proof.
  assert (0 <= cols (gradient 2 3)) as HW by (simpl; lia).
  assert (0 <= rows (gradient 2 3)) as HH by (simpl; lia).
  split; [assumption|]. split; [assumption|].
  exact (C5_reads_in_bounds (gradient 2 3) HW HH).
Defined.

(** C6: for every Height >= 0, an image of Width 1, and likewise of
    Width 0, is encoded to an empty buffer with effective width 0, the
    height returned unchanged. *)
Theorem C6_degenerate_width (bgr : Mat) :
  0 <= rows bgr -> cols bgr = 0 \/ cols bgr = 1 ->
  GetRawYUYVData bgr = inr ([], 0, rows bgr).
Proof.
  intros HH Hc.
  assert (EvenWidth (cols bgr) = 0) as HE by (destruct Hc as [-> | ->]; reflexivity).
  rewrite GetRawYUYVData_returns; rewrite ?HE; unfold INT_MAX; try lia.
  f_equal. f_equal. f_equal.
  apply length_zero_iff_nil. unfold image_bytes.
  rewrite length_rows_bytes, HE. simpl. lia.
Qed.

Lemma C6_degenerate_width_witness :
  0 <= rows (gradient 5 1) /\ (cols (gradient 5 1) = 0 \/ cols (gradient 5 1) = 1) /\
  GetRawYUYVData (gradient 5 1) = inr ([], 0, rows (gradient 5 1)).
Proof.
  assert (0 <= rows (gradient 5 1)) as HH by (simpl; lia).
  assert (cols (gradient 5 1) = 0 \/ cols (gradient 5 1) = 1) as Hc by (right; reflexivity).
  split; [assumption|]. split; [assumption|].
  exact (C6_degenerate_width (gradient 5 1) HH Hc).
Defined.

(** C7: for every image whose pixels are all (0, 0, 0), every group of
    four bytes the encoder emits is (16, 128, 16, 128), which is what the
    formulas give by hand: Y = (128 >> 8) + 16 = 16 and
    U = V = (128 >> 8) + 128 = 128. *)
Theorem C7_black (bgr : Mat) (i : nat) :
  0 <= cols bgr -> 0 <= rows bgr ->
  (forall y x, 0 <= y < rows bgr -> 0 <= x < cols bgr -> elem bgr y x = black) ->
  (4 * i + 4 <= length (emitted bgr))%nat ->
  to_int <$> take 4 (drop (4 * i) (emitted bgr)) = [16; 128; 16; 128] /\
  RGB2Y 0 0 0 = Z.shiftr 128 8 + 16 /\ RGB2Y 0 0 0 = 16 /\
  RGB2U 0 0 0 = Z.shiftr 128 8 + 128 /\ RGB2U 0 0 0 = 128 /\
  RGB2V 0 0 0 = Z.shiftr 128 8 + 128 /\ RGB2V 0 0 0 = 128.
Proof.
  intros HW HH Hblack Hi.
  split; [|repeat split; reflexivity].
  destruct (emitted_group bgr i HW HH Hi) as (y & x & Hy & Hx0 & Hx1 & ->).
  rewrite !Hblack by lia. reflexivity.
Qed.

Lemma C7_black_witness :
  0 <= cols (uniform 3 4 black) /\ 0 <= rows (uniform 3 4 black) /\
  (forall y x, 0 <= y < rows (uniform 3 4 black) -> 0 <= x < cols (uniform 3 4 black) ->
               elem (uniform 3 4 black) y x = black) /\
  (4 * 5 + 4 <= length (emitted (uniform 3 4 black)))%nat /\
  to_int <$> take 4 (drop (4 * 5) (emitted (uniform 3 4 black))) = [16; 128; 16; 128] /\
  RGB2Y 0 0 0 = Z.shiftr 128 8 + 16 /\ RGB2Y 0 0 0 = 16 /\
  RGB2U 0 0 0 = Z.shiftr 128 8 + 128 /\ RGB2U 0 0 0 = 128 /\
  RGB2V 0 0 0 = Z.shiftr 128 8 + 128 /\ RGB2V 0 0 0 = 128.
Proof.
  assert (0 <= cols (uniform 3 4 black)) as HW by (simpl; lia).
  assert (0 <= rows (uniform 3 4 black)) as HH by (simpl; lia).
  assert (forall y x, 0 <= y < rows (uniform 3 4 black) ->
                      0 <= x < cols (uniform 3 4 black) ->
                      elem (uniform 3 4 black) y x = black) as Hblack
    by (intros; reflexivity).
  assert (4 * 5 + 4 <= length (emitted (uniform 3 4 black)))%nat as Hi
    by (vm_compute; lia).
  repeat (split; [assumption|]).
  exact (C7_black (uniform 3 4 black) 5 HW HH Hblack Hi).
Defined.

(** C8: for every image with the same (R, G, B) at all pixels, any two
    groups of four bytes the encoder emits are equal, and each is
    [Y; U; Y; V] with the same luma byte twice (Y0 = Y1). *)
Theorem C8_uniform (bgr : Mat) (p : Vec3b) (i j : nat) :
  0 <= cols bgr -> 0 <= rows bgr ->
  (forall y x, 0 <= y < rows bgr -> 0 <= x < cols bgr -> elem bgr y x = p) ->
  (4 * i + 4 <= length (emitted bgr))%nat ->
  (4 * j + 4 <= length (emitted bgr))%nat ->
  take 4 (drop (4 * i) (emitted bgr)) = take 4 (drop (4 * j) (emitted bgr)) /\
  take 4 (drop (4 * i) (emitted bgr)) = [Y_of p; U_of p; Y_of p; V_of p].
Proof.
  intros HW HH Hp Hi Hj.
  assert (forall n, (4 * n + 4 <= length (emitted bgr))%nat ->
            take 4 (drop (4 * n) (emitted bgr)) = [Y_of p; U_of p; Y_of p; V_of p]) as Hg.
  { intros n Hn.
    destruct (emitted_group bgr n HW HH Hn) as (y & x & Hy & Hx0 & Hx1 & ->).
    rewrite !Hp by lia. unfold macropixel. now rewrite !average_same. }
  rewrite (Hg i Hi), (Hg j Hj). split; reflexivity.
Qed.

Lemma C8_uniform_witness :
  let bgr := uniform 3 5 (mkVec3b x0a xc8 x64) in
  let p := mkVec3b x0a xc8 x64 in
  0 <= cols bgr /\ 0 <= rows bgr /\
  (forall y x, 0 <= y < rows bgr -> 0 <= x < cols bgr -> elem bgr y x = p) /\
  (4 * 0 + 4 <= length (emitted bgr))%nat /\
  (4 * 5 + 4 <= length (emitted bgr))%nat /\
  take 4 (drop (4 * 0) (emitted bgr)) = take 4 (drop (4 * 5) (emitted bgr)) /\
  take 4 (drop (4 * 0) (emitted bgr)) = [Y_of p; U_of p; Y_of p; V_of p].
Proof.
  intros bgr p.
  assert (0 <= cols bgr) as HW by (simpl; lia).
  assert (0 <= rows bgr) as HH by (simpl; lia).
  assert (forall y x, 0 <= y < rows bgr -> 0 <= x < cols bgr -> elem bgr y x = p) as Hp
    by (intros; reflexivity).
  assert (4 * 0 + 4 <= length (emitted bgr))%nat as Hi by (vm_compute; lia).
  assert (4 * 5 + 4 <= length (emitted bgr))%nat as Hj by (vm_compute; lia).
  repeat (split; [assumption|]).
  exact (C8_uniform bgr p 0 5 HW HH Hp Hi Hj).
Defined.

(** C9, as stated, fails at the 32768 x 32768 image: the size
    [W * H * 2] leaves the range of [int], the call yields no buffer and
    no dimensions, and there is nothing for a second encoding to equal. *)
Lemma C9_pure_counterexample :
  0 <= cols huge /\ 0 <= rows huge /\ ~ pure_encoding huge.
Proof.
  split; [vm_compute; discriminate|]. split; [vm_compute; discriminate|].
  intros (buf & w & h & E & _).
  assert (GetRawYUYVData huge = inl signed_overflow) as F by (vm_compute; reflexivity).
  rewrite F in E. discriminate.
Qed.

(** C9 (amended): for every input image whose buffer size
    [EvenWidth * Height * 2] fits the [int] it is computed in (at most
    2^31 - 1) the encoder is a function of the source image alone and
    leaves it as it was: the call returns, the image is afterwards the one
    the call was entered with, encoding it again yields the same bytes and
    the same (effective width, height), and so does encoding any header of
    the same dimensions over the same pixels, whatever lies outside
    them. *)
Theorem C9_pure (a b : Mat) :
  0 <= cols a -> 0 <= rows a ->
  EvenWidth (cols a) * rows a * 2 <= INT_MAX ->
  same_pixels 0 a b ->
  pure_encoding a /\ GetRawYUYVData a = GetRawYUYVData b.
Proof.
  intros HW HH Hfit (Hr & Hc & Hpx).
  assert (image (final_state (GetRawYUYVData_body (entry a))) = a) as Himg
    by apply keeps_image_GetRawYUYVData_body.
  pose proof (GetRawYUYVData_returns a HW HH Hfit) as Hret.
  split.
  - exists (image_bytes a), (EvenWidth (cols a)), (rows a).
    split; [exact Hret|]. split; [exact Himg|]. now rewrite Himg.
  - pose proof (EvenWidth_bounds _ HW).
    apply GetRawYUYVData_ext; try congruence; try lia.
    intros y x Hy Hx. apply Hpx; lia.
Qed.

Lemma C9_pure_witness :
  0 <= cols (gradient 2 4) /\ 0 <= rows (gradient 2 4) /\
  EvenWidth (cols (gradient 2 4)) * rows (gradient 2 4) * 2 <= INT_MAX /\
  same_pixels 0 (gradient 2 4) gradient_padded /\
  pure_encoding (gradient 2 4) /\
  GetRawYUYVData (gradient 2 4) = GetRawYUYVData gradient_padded.
Proof.
  assert (0 <= cols (gradient 2 4)) as HW by (simpl; lia).
  assert (0 <= rows (gradient 2 4)) as HH by (simpl; lia).
  assert (EvenWidth (cols (gradient 2 4)) * rows (gradient 2 4) * 2 <= INT_MAX) as Hfit
    by (vm_compute; discriminate).
  assert (same_pixels 0 (gradient 2 4) gradient_padded) as Hs.
  { split; [reflexivity|]. split; [reflexivity|].
    intros y x Hy Hx. simpl in *.
    destruct (x <? 4) eqn:E; [reflexivity|]. apply Z.ltb_ge in E. lia. }
  repeat (split; [assumption|]).
  exact (C9_pure (gradient 2 4) gradient_padded HW HH Hfit Hs).
Defined.

(** C10: for every image of odd width W the whole result (bytes,
    effective width, height) is the result on the image narrowed to its
    first W - 1 columns, and two images of the same odd width and the same
    height that agree on all columns but the last have the same result. *)
Theorem C10_last_column_ignored (a b : Mat) :
  0 <= cols a -> 0 <= rows a -> Z.odd (cols a) = true ->
  same_pixels 1 a b ->
  GetRawYUYVData a = GetRawYUYVData (crop_last_column a) /\
  GetRawYUYVData a = GetRawYUYVData b.
Proof.
  intros HW HH Hodd (Hr & Hc & Hpx).
  assert (EvenWidth (cols a) = cols a - 1) as HE
    by (unfold EvenWidth; now rewrite <- Z.negb_odd, Hodd).
  assert (cols a <> 0) as Hnz by (intros E; rewrite E in Hodd; discriminate).
  split.
  - apply GetRawYUYVData_ext; simpl; try lia; try reflexivity.
    rewrite HE. unfold EvenWidth. rewrite <- Z.negb_odd, Z.sub_1_r, Z.odd_pred.
    rewrite <- Z.negb_odd, Hodd. reflexivity.
  - apply GetRawYUYVData_ext; try congruence; try lia.
    intros y x Hy Hx. apply Hpx; lia.
Qed.

Lemma C10_last_column_ignored_witness :
  0 <= cols (gradient 2 3) /\ 0 <= rows (gradient 2 3) /\
  Z.odd (cols (gradient 2 3)) = true /\
  same_pixels 1 (gradient 2 3) gradient_marked /\
  GetRawYUYVData (gradient 2 3) = GetRawYUYVData (crop_last_column (gradient 2 3)) /\
  GetRawYUYVData (gradient 2 3) = GetRawYUYVData gradient_marked.
Proof.
  assert (0 <= cols (gradient 2 3)) as HW by (simpl; lia).
  assert (0 <= rows (gradient 2 3)) as HH by (simpl; lia).
  assert (Z.odd (cols (gradient 2 3)) = true) as Hodd by reflexivity.
  assert (same_pixels 1 (gradient 2 3) gradient_marked) as Hs.
  { split; [reflexivity|]. split; [reflexivity|].
    intros y x Hy Hx. simpl in *.
    destruct (x =? 2) eqn:E; [|reflexivity]. apply Z.eqb_eq in E. lia. }
  repeat (split; [assumption|]).
  exact (C10_last_column_ignored (gradient 2 3) gradient_marked HW HH Hodd Hs).
Defined.

(** * Further properties of the routine *)

(** ** The conversion never leaves the video range *)

(** The two reductions modulo 256, of the cast and of the store, cancel:
    the byte stored is the shifted sum plus the offset. *)
Lemma Y_of_exact (p : Vec3b) :
  to_int (Y_of p)
  = (66 * to_int (ch2 p) + 129 * to_int (ch1 p) + 25 * to_int (ch0 p) + 128) / 2 ^ 8 + 16.
Proof.
  pose proof (to_int_range (ch2 p)). pose proof (to_int_range (ch1 p)).
  pose proof (to_int_range (ch0 p)).
  unfold Y_of, RGB2Y.
  rewrite !to_int_static_cast, Z.shiftr_div_pow2 by lia.
  change (2 ^ 8) with 256. set (q := _ / 256).
  assert (0 <= q <= 219) by (subst q; Z.div_mod_to_equations; lia).
  rewrite (Z.mod_small q) by lia. rewrite Z.mod_small by lia. reflexivity.
Qed.

Lemma U_of_exact (p : Vec3b) :
  to_int (U_of p)
  = (-38 * to_int (ch2 p) - 74 * to_int (ch1 p) + 112 * to_int (ch0 p) + 128) / 2 ^ 8 + 128.
Proof.
  pose proof (to_int_range (ch2 p)). pose proof (to_int_range (ch1 p)).
  pose proof (to_int_range (ch0 p)).
  unfold U_of, RGB2U.
  rewrite !to_int_static_cast, Z.shiftr_div_pow2 by lia.
  change (2 ^ 8) with 256. set (q := _ / 256).
  assert (-112 <= q <= 112) by (subst q; Z.div_mod_to_equations; lia).
  rewrite Zplus_mod_idemp_l. rewrite Z.mod_small by lia. reflexivity.
Qed.

Lemma V_of_exact (p : Vec3b) :
  to_int (V_of p)
  = (112 * to_int (ch2 p) - 94 * to_int (ch1 p) - 18 * to_int (ch0 p) + 128) / 2 ^ 8 + 128.
Proof.
  pose proof (to_int_range (ch2 p)). pose proof (to_int_range (ch1 p)).
  pose proof (to_int_range (ch0 p)).
  unfold V_of, RGB2V.
  rewrite !to_int_static_cast, Z.shiftr_div_pow2 by lia.
  change (2 ^ 8) with 256. set (q := _ / 256).
  assert (-112 <= q <= 112) by (subst q; Z.div_mod_to_equations; lia).
  rewrite Zplus_mod_idemp_l. rewrite Z.mod_small by lia. reflexivity.
Qed.

Lemma Y_of_range (p : Vec3b) : 16 <= to_int (Y_of p) <= 235.
Proof.
  rewrite Y_of_exact. change (2 ^ 8) with 256.
  pose proof (to_int_range (ch2 p)). pose proof (to_int_range (ch1 p)).
  pose proof (to_int_range (ch0 p)). Z.div_mod_to_equations. lia.
Qed.

Lemma U_of_range (p : Vec3b) : 16 <= to_int (U_of p) <= 240.
Proof.
  rewrite U_of_exact. change (2 ^ 8) with 256.
  pose proof (to_int_range (ch2 p)). pose proof (to_int_range (ch1 p)).
  pose proof (to_int_range (ch0 p)). Z.div_mod_to_equations. lia.
Qed.

Lemma V_of_range (p : Vec3b) : 16 <= to_int (V_of p) <= 240.
Proof.
  rewrite V_of_exact. change (2 ^ 8) with 256.
  pose proof (to_int_range (ch2 p)). pose proof (to_int_range (ch1 p)).
  pose proof (to_int_range (ch0 p)). Z.div_mod_to_equations. lia.
Qed.

Lemma average_range (lo hi : Z) (c0 c1 : uint8_t) :
  lo <= to_int c0 <= hi -> lo <= to_int c1 <= hi ->
  lo <= to_int (average c0 c1) <= hi.
Proof.
  intros H0 H1. rewrite to_int_average. Z.div_mod_to_equations. lia.
Qed.

Lemma grey_chroma (p : Vec3b) : grey p -> U_of p = x80 /\ V_of p = x80.
Proof.
  intros [E01 E12].
  assert (to_int (U_of p) = 128 /\ to_int (V_of p) = 128) as [HU HV].
  { rewrite U_of_exact, V_of_exact, <- E12, <- E01. change (2 ^ 8) with 256.
    pose proof (to_int_range (ch0 p)). Z.div_mod_to_equations. lia. }
  split; rewrite <- (static_cast_to_int (_ p)); [rewrite HU|rewrite HV]; reflexivity.
Qed.

(** X1: for every pixel the stored bytes are the shifted sums plus their
    offsets, as integers, without any wrap: Y = (sum >> 8) + 16 lies in
    [16, 235], U and V = (sum >> 8) + 128 lie in [16, 240]. *)
Theorem X1_video_range (p : Vec3b) :
  let R := to_int (ch2 p) in
  let G := to_int (ch1 p) in
  let B := to_int (ch0 p) in
  (to_int (Y_of p) = Z.shiftr (66 * R + 129 * G + 25 * B + 128) 8 + 16 /\
   16 <= to_int (Y_of p) <= 235) /\
  (to_int (U_of p) = Z.shiftr (-38 * R - 74 * G + 112 * B + 128) 8 + 128 /\
   16 <= to_int (U_of p) <= 240) /\
  (to_int (V_of p) = Z.shiftr (112 * R - 94 * G - 18 * B + 128) 8 + 128 /\
   16 <= to_int (V_of p) <= 240).
Proof.
  intros R G B. rewrite !Z.shiftr_div_pow2 by lia.
  split; [split; [apply Y_of_exact|apply Y_of_range]|].
  split; [split; [apply U_of_exact|apply U_of_range]|].
  split; [apply V_of_exact|apply V_of_range].
Qed.

(** X4: the luma byte never decreases when the channels increase: a
    pixel at least as bright in red, green and blue gets a luma byte at
    least as large. *)
Theorem X4_luma_monotone (p q : Vec3b) :
  to_int (ch2 p) <= to_int (ch2 q) ->
  to_int (ch1 p) <= to_int (ch1 q) ->
  to_int (ch0 p) <= to_int (ch0 q) ->
  to_int (Y_of p) <= to_int (Y_of q).
Proof.
  intros HR HG HB. rewrite !Y_of_exact.
  apply Z.add_le_mono_r, Z.div_le_mono; lia.
Qed.

Lemma X4_luma_monotone_witness :
  to_int (ch2 (mkVec3b x10 x20 x30)) <= to_int (ch2 (mkVec3b x11 x20 xf0)) /\
  to_int (ch1 (mkVec3b x10 x20 x30)) <= to_int (ch1 (mkVec3b x11 x20 xf0)) /\
  to_int (ch0 (mkVec3b x10 x20 x30)) <= to_int (ch0 (mkVec3b x11 x20 xf0)) /\
  to_int (Y_of (mkVec3b x10 x20 x30)) <= to_int (Y_of (mkVec3b x11 x20 xf0)).
Proof.
  assert (to_int (ch2 (mkVec3b x10 x20 x30)) <= to_int (ch2 (mkVec3b x11 x20 xf0))) as HR
    by (vm_compute; discriminate).
  assert (to_int (ch1 (mkVec3b x10 x20 x30)) <= to_int (ch1 (mkVec3b x11 x20 xf0))) as HG
    by (vm_compute; discriminate).
  assert (to_int (ch0 (mkVec3b x10 x20 x30)) <= to_int (ch0 (mkVec3b x11 x20 xf0))) as HB
    by (vm_compute; discriminate).
  repeat (split; [assumption|]).
  exact (X4_luma_monotone _ _ HR HG HB).
Defined.

(** ** Bytes of the buffer, one at a time *)

Section BlockLookup.
Context {A : Type} (f : nat -> list A) (n : nat).
Hypothesis f_length : forall j, length (f j) = n.

Lemma length_flat_map_seq (from cnt : nat) :
  length (flat_map f (seq from cnt)) = (cnt * n)%nat.
Proof.
  revert from. induction cnt as [|cnt IH]; intros from; simpl; [reflexivity|].
  rewrite length_app, IH, f_length. reflexivity.
Qed.

(** Element [b] of block [j]. *)
Lemma lookup_flat_map_seq (cnt from j b : nat) :
  (j < cnt)%nat -> (b < n)%nat ->
  flat_map f (seq from cnt) !! (j * n + b)%nat = f (from + j)%nat !! b.
Proof.
  intros Hj Hb.
  rewrite <- (block_flat_map_seq f n f_length cnt from j Hj).
  now rewrite lookup_take_lt, lookup_drop by lia.
Qed.

(** The blocks [a], ..., [a + b - 1], cut out of the whole. *)
Lemma flat_map_seq_sub (from a b c : nat) :
  (a + b <= c)%nat ->
  take (b * n) (drop (a * n) (flat_map f (seq from c)))
  = flat_map f (seq (from + a) b).
Proof.
  intros Hc.
  replace c with (a + (b + (c - a - b)))%nat by lia.
  rewrite !seq_app, !flat_map_app.
  rewrite drop_app_length' by (now rewrite length_flat_map_seq).
  rewrite take_app_length' by (now rewrite length_flat_map_seq).
  reflexivity.
Qed.
End BlockLookup.

Lemma image_bytes_lookup (bgr : Mat) (y k c : nat) :
  (y < Z.to_nat (rows bgr))%nat ->
  (k < Z.to_nat (EvenWidth (cols bgr) / 2))%nat ->
  (c < 4)%nat ->
  image_bytes bgr !! (y * (4 * Z.to_nat (EvenWidth (cols bgr) / 2)) + k * 4 + c)%nat
  = group_at bgr (Z.of_nat y) k !! c.
Proof.
  intros Hy Hk Hc.
  rewrite <- (image_bytes_group bgr y k Hy Hk).
  now rewrite lookup_take_lt, lookup_drop by lia.
Qed.

(** Every position of the buffer is byte [c] of the group of pair [k] of
    row [y], for one [y], [k], [c]. *)
Lemma image_bytes_position (bgr : Mat) (i : nat) :
  (i < length (image_bytes bgr))%nat ->
  exists y k c : nat,
    (y < Z.to_nat (rows bgr))%nat /\
    (k < Z.to_nat (EvenWidth (cols bgr) / 2))%nat /\
    (c < 4)%nat /\
    i = (y * (4 * Z.to_nat (EvenWidth (cols bgr) / 2)) + k * 4 + c)%nat.
Proof.
  intros Hi. unfold image_bytes in Hi. rewrite length_rows_bytes in Hi.
  set (w := Z.to_nat (EvenWidth (cols bgr) / 2)) in *.
  set (h := Z.to_nat (rows bgr)) in *.
  assert (w <> 0)%nat as Hw by (intros E; rewrite E in Hi; lia).
  exists (i / 4 / w)%nat, ((i / 4) mod w)%nat, (i mod 4)%nat.
  pose proof (Nat.div_mod_eq i 4) as H4.
  pose proof (Nat.div_mod_eq (i / 4) w) as Hdm.
  pose proof (Nat.mod_upper_bound (i / 4) w Hw) as Hmod.
  pose proof (Nat.mod_upper_bound i 4 ltac:(lia)) as Hmod4.
  assert (i / 4 / w < h)%nat as Hy.
  { apply Nat.Div0.div_lt_upper_bound. apply Nat.Div0.div_lt_upper_bound. lia. }
  repeat split; try assumption. nia.
Qed.

(** The luma byte of pixel [x] of row [y], at offset [(y * W + x) * 2]. *)
Lemma image_bytes_luma (bgr : Mat) (y x : Z) :
  0 <= cols bgr -> 0 <= y < rows bgr -> 0 <= x < EvenWidth (cols bgr) ->
  image_bytes bgr !! Z.to_nat ((y * EvenWidth (cols bgr) + x) * 2)
  = Some (Y_of (elem bgr y x)).
Proof.
  intros HW Hy Hx.
  pose proof (EvenWidth_half (cols bgr)) as Hhalf.
  set (w := EvenWidth (cols bgr) / 2) in *.
  destruct (Z.even x) eqn:E.
  - apply Z.even_spec in E as [k ->].
    replace (Z.to_nat ((y * EvenWidth (cols bgr) + 2 * k) * 2))
      with (Z.to_nat y * (4 * Z.to_nat w) + Z.to_nat k * 4 + 0)%nat by nia.
    subst w. rewrite image_bytes_lookup by lia.
    unfold group_at, macropixel. simpl. now rewrite !Z2Nat.id by lia.
  - rewrite <- Z.negb_odd in E. apply negb_false_iff, Z.odd_spec in E as [k ->].
    replace (Z.to_nat ((y * EvenWidth (cols bgr) + (2 * k + 1)) * 2))
      with (Z.to_nat y * (4 * Z.to_nat w) + Z.to_nat k * 4 + 2)%nat by nia.
    subst w. rewrite image_bytes_lookup by lia.
    unfold group_at, macropixel. simpl. now rewrite !Z2Nat.id by lia.
Qed.

(** The chroma byte that follows the luma byte of an even pixel: the U of
    its pair. *)
Lemma image_bytes_chroma_even (bgr : Mat) (y x : Z) :
  0 <= cols bgr -> 0 <= y < rows bgr -> 0 <= x < EvenWidth (cols bgr) ->
  Z.even x = true ->
  image_bytes bgr !! Z.to_nat ((y * EvenWidth (cols bgr) + x) * 2 + 1)
  = Some (average (U_of (elem bgr y x)) (U_of (elem bgr y (x + 1)))).
Proof.
  intros HW Hy Hx E.
  pose proof (EvenWidth_half (cols bgr)) as Hhalf.
  set (w := EvenWidth (cols bgr) / 2) in *.
  apply Z.even_spec in E as [k ->].
  replace (Z.to_nat ((y * EvenWidth (cols bgr) + 2 * k) * 2 + 1))
    with (Z.to_nat y * (4 * Z.to_nat w) + Z.to_nat k * 4 + 1)%nat by nia.
  subst w. rewrite image_bytes_lookup by lia.
  unfold group_at, macropixel. simpl. now rewrite !Z2Nat.id by lia.
Qed.

(** The chroma byte that follows the luma byte of an odd pixel: the V of
    its pair. *)
Lemma image_bytes_chroma_odd (bgr : Mat) (y x : Z) :
  0 <= cols bgr -> 0 <= y < rows bgr -> 0 <= x < EvenWidth (cols bgr) ->
  Z.odd x = true ->
  image_bytes bgr !! Z.to_nat ((y * EvenWidth (cols bgr) + x) * 2 + 1)
  = Some (average (V_of (elem bgr y (x - 1))) (V_of (elem bgr y x))).
Proof.
  intros HW Hy Hx E.
  pose proof (EvenWidth_half (cols bgr)) as Hhalf.
  set (w := EvenWidth (cols bgr) / 2) in *.
  apply Z.odd_spec in E as [k ->].
  replace (Z.to_nat ((y * EvenWidth (cols bgr) + (2 * k + 1)) * 2 + 1))
    with (Z.to_nat y * (4 * Z.to_nat w) + Z.to_nat k * 4 + 3)%nat by nia.
  subst w. rewrite image_bytes_lookup by lia.
  unfold group_at, macropixel. simpl. rewrite !Z2Nat.id by lia.
  now replace (2 * k + 1 - 1) with (2 * k) by lia.
Qed.

(** Four bytes in a row, read as a window. *)
Lemma take4_drop_lookup {A : Type} (l : list A) (a : nat) (b0 b1 b2 b3 : A) :
  l !! a = Some b0 -> l !! (a + 1)%nat = Some b1 ->
  l !! (a + 2)%nat = Some b2 -> l !! (a + 3)%nat = Some b3 ->
  take 4 (drop a l) = [b0; b1; b2; b3].
Proof.
  intros H0 H1 H2 H3. apply list_eq. intros i.
  destruct (decide (i < 4)%nat) as [Hi|Hi].
  - rewrite lookup_take_lt, lookup_drop by assumption.
    destruct i as [|[|[|[|i]]]]; simpl; try lia;
      rewrite ?Nat.add_0_r; assumption.
  - rewrite lookup_take_ge by lia.
    destruct i as [|[|[|[|i]]]]; try lia. reflexivity.
Qed.

(** ** Every header *)

Lemma EvenWidth_even (W : Z) : Z.even (EvenWidth W) = true.
Proof. rewrite (EvenWidth_half W), Z.even_mul. reflexivity. Qed.

Lemma EvenWidth_near (W : Z) : W - 1 <= EvenWidth W <= W.
Proof. unfold EvenWidth. destruct (Z.even W); lia. Qed.

(** The call up to its loops: the size computation and the allocation. *)
Lemma GetRawYUYVData_body_prefix (bgr : Mat) :
  GetRawYUYVData_body (entry bgr) =
    let W := EvenWidth (cols bgr) in
    let H := rows bgr in
    if in_int (W * H) then
      if in_int (W * H * 2) then
        if W * H * 2 <? 0 then Fault length_error (entry bgr)
        else (for_y (Z.to_nat H) W H 0 ;; mret (W, H))
               (mkState bgr (replicate (Z.to_nat (W * H * 2)) x00) 0 [])
      else Fault signed_overflow (entry bgr)
    else Fault signed_overflow (entry bgr).
Proof.
  unfold GetRawYUYVData_body. cbn [entry image]. rewrite EvenWidth_code.
  fold (entry bgr). cbv zeta.
  set (W := EvenWidth (cols bgr)). set (H := rows bgr).
  unfold mbind at 1, M_bind at 1. unfold int_mul at 1.
  destruct (in_int (W * H)); [|reflexivity].
  unfold mret at 1, M_ret at 1.
  unfold mbind at 1, M_bind at 1. unfold int_mul at 1.
  destruct (in_int (W * H * 2)); [|reflexivity].
  unfold mret at 1, M_ret at 1.
  unfold mbind at 1, M_bind at 1. unfold vector_new.
  destruct (W * H * 2 <? 0); [reflexivity|].
  unfold mbind at 1, M_bind at 1. unfold set_idx. reflexivity.
Qed.

(** Without rows the loops do nothing: the call is the size computation
    and the allocation. *)
Lemma GetRawYUYVData_no_rows (bgr : Mat) :
  rows bgr <= 0 ->
  GetRawYUYVData bgr =
    let n := EvenWidth (cols bgr) * rows bgr * 2 in
    if in_int (EvenWidth (cols bgr) * rows bgr) && in_int n then
      if n <? 0 then inl length_error
      else inr (replicate (Z.to_nat n) x00, EvenWidth (cols bgr), rows bgr)
    else inl signed_overflow.
Proof.
  intros HH. unfold GetRawYUYVData. rewrite GetRawYUYVData_body_prefix. cbv zeta.
  destruct (in_int (EvenWidth (cols bgr) * rows bgr)); [|reflexivity].
  destruct (in_int (EvenWidth (cols bgr) * rows bgr * 2)); [|reflexivity].
  cbn [andb]. destruct (_ <? 0); [reflexivity|].
  replace (for_y (Z.to_nat (rows bgr)) (EvenWidth (cols bgr)) (rows bgr) 0)
    with (mret tt : M unit); [reflexivity|].
  destruct (Z.to_nat (rows bgr)); simpl;
    (replace (0 <? rows bgr) with false; [reflexivity|]);
    symmetry; apply Z.ltb_ge; lia.
Qed.

Lemma in_int_half (a : Z) : in_int (a * 2) = true -> in_int a = true.
Proof.
  unfold in_int, INT_MIN, INT_MAX. rewrite !andb_true_iff, !Z.leb_le. lia.
Qed.

(** A size computation that stays within [int] leaves two outcomes,
    whatever the header holds: a negative size, refused by the vector, or
    a return with a vector of that size. *)
Lemma GetRawYUYVData_in_range (bgr : Mat) :
  in_int (EvenWidth (cols bgr) * rows bgr * 2) = true ->
  (EvenWidth (cols bgr) * rows bgr * 2 < 0 /\
   GetRawYUYVData bgr = inl length_error)
  \/
  (0 <= EvenWidth (cols bgr) * rows bgr * 2 /\
   exists buf,
     GetRawYUYVData bgr = inr (buf, EvenWidth (cols bgr), rows bgr) /\
     Z.of_nat (length buf) = EvenWidth (cols bgr) * rows bgr * 2).
Proof.
  intros Hin. pose proof (in_int_half _ Hin) as Hin1.
  destruct (Z_lt_le_dec (EvenWidth (cols bgr) * rows bgr * 2) 0) as [Hneg|Hpos].
  - left. split; [exact Hneg|].
    unfold GetRawYUYVData. rewrite GetRawYUYVData_body_prefix. cbv zeta.
    rewrite Hin1, Hin.
    replace (EvenWidth (cols bgr) * rows bgr * 2 <? 0) with true
      by (symmetry; apply Z.ltb_lt; lia).
    reflexivity.
  - right. split; [exact Hpos|].
    destruct (Z_le_gt_dec (rows bgr) 0) as [HH|HH].
    + rewrite GetRawYUYVData_no_rows by assumption. cbv zeta.
      rewrite Hin1, Hin. cbn [andb].
      replace (EvenWidth (cols bgr) * rows bgr * 2 <? 0) with false
        by (symmetry; apply Z.ltb_ge; lia).
      eexists. split; [reflexivity|]. rewrite length_replicate. lia.
    + pose proof (EvenWidth_near (cols bgr)) as Hn.
      assert (0 <= cols bgr) as HW by nia.
      exists (image_bytes bgr). split.
      * apply GetRawYUYVData_returns; try lia.
        unfold in_int in Hin. apply andb_true_iff in Hin as [_ Hin].
        now apply Z.leb_le in Hin.
      * apply length_image_bytes; lia.
Qed.

(** X5: for any header whose size computation [W * H * 2] stays within
    [int], negative dimensions included: whenever the call returns,
    [out_w] is the width rounded down to even, [out_h] is the height, and
    the vector holds exactly [out_w * out_h * 2] bytes, a whole number of
    four-byte groups. *)
Theorem X5_buffer_fits_header (bgr : Mat) (buf : list uint8_t) (w h : Z) :
  in_int (EvenWidth (cols bgr) * rows bgr * 2) = true ->
  GetRawYUYVData bgr = inr (buf, w, h) ->
  w = EvenWidth (cols bgr) /\ h = rows bgr /\ Z.even w = true /\
  Z.of_nat (length buf) = w * h * 2 /\
  (4 | Z.of_nat (length buf)).
Proof.
  intros Hin E.
  destruct (GetRawYUYVData_in_range bgr Hin) as [(_ & F)|(_ & buf' & F & Hl)];
    rewrite F in E; try discriminate.
  inversion E; subst. split; [reflexivity|]. split; [reflexivity|].
  split; [apply EvenWidth_even|]. split; [exact Hl|].
  rewrite Hl. exists (EvenWidth (cols bgr) / 2 * rows bgr).
  pose proof (EvenWidth_half (cols bgr)). lia.
Qed.

Lemma X5_buffer_fits_header_witness :
  let bgr := uniform (-1) (-1) black in
  in_int (EvenWidth (cols bgr) * rows bgr * 2) = true /\
  GetRawYUYVData bgr = inr ([x00; x00; x00; x00], -2, -1) /\
  -2 = EvenWidth (cols bgr) /\ -1 = rows bgr /\ Z.even (-2) = true /\
  Z.of_nat (length [x00; x00; x00; x00]) = -2 * -1 * 2 /\
  (4 | Z.of_nat (length [x00; x00; x00; x00])).
Proof.
  intros bgr.
  assert (in_int (EvenWidth (cols bgr) * rows bgr * 2) = true) as Hin
    by (vm_compute; reflexivity).
  assert (GetRawYUYVData bgr = inr ([x00; x00; x00; x00], -2, -1)) as E
    by (vm_compute; reflexivity).
  split; [exact Hin|]. split; [exact E|].
  exact (X5_buffer_fits_header bgr _ (-2) (-1) Hin E).
Defined.

(** X6: with non-negative dimensions and a size that fits [int] the call
    runs to its return without a fault, and [idx] has then advanced to
    exactly the length of the buffer, [EvenWidth * Height * 2]: the loops
    stop storing where the vector ends. *)
Theorem X6_filled_exactly (bgr : Mat) :
  0 <= cols bgr -> 0 <= rows bgr ->
  EvenWidth (cols bgr) * rows bgr * 2 <= INT_MAX ->
  exists s,
    GetRawYUYVData_body (entry bgr) = Ok (EvenWidth (cols bgr), rows bgr) s /\
    idx s = Z.of_nat (length (buffer s)) /\
    idx s = EvenWidth (cols bgr) * rows bgr * 2.
Proof.
  intros HW HH Hfit. eexists. split; [now apply GetRawYUYVData_body_run|].
  cbn [idx buffer]. split; [|reflexivity].
  now rewrite length_image_bytes.
Qed.

Lemma X6_filled_exactly_witness :
  let bgr := gradient 3 5 in
  0 <= cols bgr /\ 0 <= rows bgr /\
  EvenWidth (cols bgr) * rows bgr * 2 <= INT_MAX /\
  exists s,
    GetRawYUYVData_body (entry bgr) = Ok (EvenWidth (cols bgr), rows bgr) s /\
    idx s = Z.of_nat (length (buffer s)) /\
    idx s = EvenWidth (cols bgr) * rows bgr * 2.
Proof.
  intros bgr.
  assert (0 <= cols bgr) as HW by (simpl; lia).
  assert (0 <= rows bgr) as HH by (simpl; lia).
  assert (EvenWidth (cols bgr) * rows bgr * 2 <= INT_MAX) as Hfit
    by (vm_compute; discriminate).
  repeat (split; [assumption|]).
  exact (X6_filled_exactly bgr HW HH Hfit).
Defined.





(** ** The bytes of a returned buffer *)

(** X2: with non-negative dimensions every byte the call stores lies in
    [16, 240], and every byte at an even offset (a luma byte) in
    [16, 235]; none keeps the 0 the vector was created with. *)
Theorem X2_bytes_in_video_range (bgr : Mat) (i : nat) (b : uint8_t) :
  0 <= cols bgr -> 0 <= rows bgr ->
  emitted bgr !! i = Some b ->
  16 <= to_int b <= 240 /\ (Nat.even i = true -> to_int b <= 235).
Proof.
  intros HW HH Hb.
  destruct (call_cases bgr HW HH) as [(_ & He & _)|(_ & He & _)];
    rewrite He in Hb; [|discriminate].
  destruct (image_bytes_position bgr i (lookup_lt_Some _ _ _ Hb))
    as (y & k & c & Hy & Hk & Hc & ->).
  rewrite image_bytes_lookup in Hb by assumption.
  unfold group_at, macropixel in Hb.
  set (p0 := elem bgr (Z.of_nat y) (2 * Z.of_nat k)) in *.
  set (p1 := elem bgr (Z.of_nat y) (2 * Z.of_nat k + 1)) in *.
  pose proof (Y_of_range p0). pose proof (Y_of_range p1).
  pose proof (average_range 16 240 _ _ (U_of_range p0) (U_of_range p1)).
  pose proof (average_range 16 240 _ _ (V_of_range p0) (V_of_range p1)).
  destruct c as [|[|[|[|c]]]]; simpl in Hb; try lia;
    inversion Hb; subst b; (split; [lia|]); intros Hev; try lia;
    apply Nat.even_spec in Hev as [m Hm]; lia.
Qed.

Lemma X2_bytes_in_video_range_witness :
  0 <= cols (gradient 2 3) /\ 0 <= rows (gradient 2 3) /\
  emitted (gradient 2 3) !! 6%nat = Some x84 /\
  16 <= to_int x84 <= 240 /\ (Nat.even 6 = true -> to_int x84 <= 235).
Proof.
  assert (0 <= cols (gradient 2 3)) as HW by (simpl; lia).
  assert (0 <= rows (gradient 2 3)) as HH by (simpl; lia).
  assert (emitted (gradient 2 3) !! 6%nat = Some x84) as Hb by (vm_compute; reflexivity).
  repeat (split; [assumption|]).
  exact (X2_bytes_in_video_range (gradient 2 3) 6 x84 HW HH Hb).
Defined.

(** X3: for an image of grey pixels (R = G = B at each pixel, whatever
    the brightness) every chroma byte is 128: each group the call stores
    is [Y0; 128; Y1; 128]. *)
Theorem X3_grey_chroma_neutral (bgr : Mat) (i : nat) :
  0 <= cols bgr -> 0 <= rows bgr ->
  (forall y x, 0 <= y < rows bgr -> 0 <= x < cols bgr -> grey (elem bgr y x)) ->
  (4 * i + 4 <= length (emitted bgr))%nat ->
  exists Y0 Y1 : uint8_t,
    take 4 (drop (4 * i) (emitted bgr)) = [Y0; x80; Y1; x80] /\ to_int x80 = 128.
Proof.
  intros HW HH Hgrey Hi.
  destruct (emitted_group bgr i HW HH Hi) as (y & x & Hy & Hx0 & Hx1 & ->).
  destruct (grey_chroma _ (Hgrey y x ltac:(lia) ltac:(lia))) as [HU0 HV0].
  destruct (grey_chroma _ (Hgrey y (x + 1) ltac:(lia) ltac:(lia))) as [HU1 HV1].
  exists (Y_of (elem bgr y x)), (Y_of (elem bgr y (x + 1))).
  unfold macropixel. rewrite HU0, HU1, HV0, HV1, !average_same.
  split; reflexivity.
Qed.

Lemma X3_grey_chroma_neutral_witness :
  let bgr := mkMat 2 4 (fun y x => let c := static_cast_uint8 (50 * x + 9 * y) in
                                   mkVec3b c c c) in
  0 <= cols bgr /\ 0 <= rows bgr /\
  (forall y x, 0 <= y < rows bgr -> 0 <= x < cols bgr -> grey (elem bgr y x)) /\
  (4 * 3 + 4 <= length (emitted bgr))%nat /\
  exists Y0 Y1 : uint8_t,
    take 4 (drop (4 * 3) (emitted bgr)) = [Y0; x80; Y1; x80] /\ to_int x80 = 128.
Proof.
  intros bgr.
  assert (0 <= cols bgr) as HW by (simpl; lia).
  assert (0 <= rows bgr) as HH by (simpl; lia).
  assert (forall y x, 0 <= y < rows bgr -> 0 <= x < cols bgr -> grey (elem bgr y x))
    as Hgrey by (intros; split; reflexivity).
  assert (4 * 3 + 4 <= length (emitted bgr))%nat as Hi by (vm_compute; lia).
  repeat (split; [assumption|]).
  exact (X3_grey_chroma_neutral bgr 3 HW HH Hgrey Hi).
Defined.

(** X8: read as two-byte pixels, the returned buffer holds at pixel
    (y, x), for odd x as for even x, first the luma byte of source pixel
    (y, x), then a chroma byte of its pair: the averaged U when x is even,
    the averaged V when x is odd. *)
Theorem X8_two_byte_pixels (bgr : Mat) (y x : Z) :
  0 <= cols bgr -> 0 <= rows bgr ->
  EvenWidth (cols bgr) * rows bgr * 2 <= INT_MAX ->
  0 <= y < rows bgr -> 0 <= x < EvenWidth (cols bgr) ->
  exists buf,
    GetRawYUYVData bgr = inr (buf, EvenWidth (cols bgr), rows bgr) /\
    buf !! Z.to_nat ((y * EvenWidth (cols bgr) + x) * 2) = Some (Y_of (elem bgr y x)) /\
    buf !! Z.to_nat ((y * EvenWidth (cols bgr) + x) * 2 + 1)
    = Some (if Z.even x
            then average (U_of (elem bgr y x)) (U_of (elem bgr y (x + 1)))
            else average (V_of (elem bgr y (x - 1))) (V_of (elem bgr y x))).
Proof.
  intros HW HH Hfit Hy Hx. exists (image_bytes bgr).
  split; [now apply GetRawYUYVData_returns|].
  split; [now apply image_bytes_luma|].
  destruct (Z.even x) eqn:E.
  - now apply image_bytes_chroma_even.
  - apply image_bytes_chroma_odd; try assumption.
    now rewrite <- Z.negb_even, E.
Qed.

Lemma X8_two_byte_pixels_witness :
  let bgr := gradient 2 5 in
  0 <= cols bgr /\ 0 <= rows bgr /\
  EvenWidth (cols bgr) * rows bgr * 2 <= INT_MAX /\
  0 <= 1 < rows bgr /\ 0 <= 3 < EvenWidth (cols bgr) /\
  exists buf,
    GetRawYUYVData bgr = inr (buf, EvenWidth (cols bgr), rows bgr) /\
    buf !! Z.to_nat ((1 * EvenWidth (cols bgr) + 3) * 2) = Some (Y_of (elem bgr 1 3)) /\
    buf !! Z.to_nat ((1 * EvenWidth (cols bgr) + 3) * 2 + 1)
    = Some (if Z.even 3
            then average (U_of (elem bgr 1 3)) (U_of (elem bgr 1 (3 + 1)))
            else average (V_of (elem bgr 1 (3 - 1))) (V_of (elem bgr 1 3))).
Proof.
  intros bgr.
  assert (0 <= cols bgr) as HW by (simpl; lia).
  assert (0 <= rows bgr) as HH by (simpl; lia).
  assert (EvenWidth (cols bgr) * rows bgr * 2 <= INT_MAX) as Hfit
    by (vm_compute; discriminate).
  assert (0 <= 1 < rows bgr) as Hy by (simpl; lia).
  assert (0 <= 3 < EvenWidth (cols bgr)) as Hx by (vm_compute; split; [discriminate|reflexivity]).
  repeat (split; [assumption|]).
  exact (X8_two_byte_pixels bgr 1 3 HW HH Hfit Hy Hx).
Defined.

(** X9: four bytes taken from the buffer at an odd pixel x are
    [Y(x); V; Y(x+1); U]: the luma bytes of pixels x and x + 1 in place,
    but the chroma bytes in the order V, U, the V of the pair (x-1, x)
    and the U of the pair (x+1, x+2). *)
Theorem X9_odd_window (bgr : Mat) (y x : Z) :
  0 <= cols bgr -> 0 <= rows bgr ->
  EvenWidth (cols bgr) * rows bgr * 2 <= INT_MAX ->
  0 <= y < rows bgr -> 0 <= x -> x + 1 < EvenWidth (cols bgr) ->
  Z.odd x = true ->
  exists buf,
    GetRawYUYVData bgr = inr (buf, EvenWidth (cols bgr), rows bgr) /\
    take 4 (drop (Z.to_nat ((y * EvenWidth (cols bgr) + x) * 2)) buf)
    = [Y_of (elem bgr y x);
       average (V_of (elem bgr y (x - 1))) (V_of (elem bgr y x));
       Y_of (elem bgr y (x + 1));
       average (U_of (elem bgr y (x + 1))) (U_of (elem bgr y (x + 2)))].
Proof.
  intros HW HH Hfit Hy Hx0 Hx1 Hodd. exists (image_bytes bgr).
  split; [now apply GetRawYUYVData_returns|].
  pose proof (EvenWidth_bounds _ HW) as Hb.
  set (W := EvenWidth (cols bgr)) in *.
  assert (0 <= y * W) by nia.
  apply take4_drop_lookup.
  - apply image_bytes_luma; lia.
  - replace (Z.to_nat ((y * W + x) * 2) + 1)%nat
      with (Z.to_nat ((y * W + x) * 2 + 1)) by lia.
    apply image_bytes_chroma_odd; try assumption; lia.
  - replace (Z.to_nat ((y * W + x) * 2) + 2)%nat
      with (Z.to_nat ((y * W + (x + 1)) * 2)) by lia.
    apply image_bytes_luma; lia.
  - replace (Z.to_nat ((y * W + x) * 2) + 3)%nat
      with (Z.to_nat ((y * W + (x + 1)) * 2 + 1)) by lia.
    replace (x + 2) with (x + 1 + 1) by lia.
    apply image_bytes_chroma_even; try lia.
    now rewrite Z.even_add, <- Z.negb_odd, Hodd.
Qed.

Lemma X9_odd_window_witness :
  let bgr := gradient 2 5 in
  0 <= cols bgr /\ 0 <= rows bgr /\
  EvenWidth (cols bgr) * rows bgr * 2 <= INT_MAX /\
  0 <= 1 < rows bgr /\ 0 <= 1 /\ 1 + 1 < EvenWidth (cols bgr) /\
  Z.odd 1 = true /\
  exists buf,
    GetRawYUYVData bgr = inr (buf, EvenWidth (cols bgr), rows bgr) /\
    take 4 (drop (Z.to_nat ((1 * EvenWidth (cols bgr) + 1) * 2)) buf)
    = [Y_of (elem bgr 1 1);
       average (V_of (elem bgr 1 (1 - 1))) (V_of (elem bgr 1 1));
       Y_of (elem bgr 1 (1 + 1));
       average (U_of (elem bgr 1 (1 + 1))) (U_of (elem bgr 1 (1 + 2)))].
Proof.
  intros bgr.
  assert (0 <= cols bgr) as HW by (simpl; lia).
  assert (0 <= rows bgr) as HH by (simpl; lia).
  assert (EvenWidth (cols bgr) * rows bgr * 2 <= INT_MAX) as Hfit
    by (vm_compute; discriminate).
  assert (0 <= 1 < rows bgr) as Hy by (simpl; lia).
  assert (0 <= 1) as Hx0 by lia.
  assert (1 + 1 < EvenWidth (cols bgr)) as Hx1 by (vm_compute; reflexivity).
  assert (Z.odd 1 = true) as Hodd by reflexivity.
  repeat (split; [assumption|]).
  exact (X9_odd_window bgr 1 1 HW HH Hfit Hy Hx0 Hx1 Hodd).
Defined.

(** ** One pixel, one rectangle *)

(** X10: replacing one pixel (y0, x0) of the image changes at most three
    bytes of the result: the luma byte of that pixel and the U and V
    bytes of its pair; every other byte, the luma of the other pixel of
    the pair included, is the same, and so are the returned
    dimensions. *)
Theorem X10_pixel_locality (a b : Mat) (y0 x0 : Z) :
  0 <= cols a -> 0 <= rows a ->
  EvenWidth (cols a) * rows a * 2 <= INT_MAX ->
  differ_at y0 x0 a b ->
  exists bufa bufb,
    GetRawYUYVData a = inr (bufa, EvenWidth (cols a), rows a) /\
    GetRawYUYVData b = inr (bufb, EvenWidth (cols a), rows a) /\
    length bufa = length bufb /\
    forall i : nat,
      Z.of_nat i <> (y0 * EvenWidth (cols a) + x0) * 2 ->
      Z.of_nat i <> (y0 * EvenWidth (cols a) + 2 * (x0 / 2)) * 2 + 1 ->
      Z.of_nat i <> (y0 * EvenWidth (cols a) + 2 * (x0 / 2)) * 2 + 3 ->
      bufa !! i = bufb !! i.
Proof.
  intros HW HH Hfit (Hr & Hc & Hpx).
  exists (image_bytes a), (image_bytes b).
  split; [now apply GetRawYUYVData_returns|].
  split; [rewrite Hr, Hc; apply GetRawYUYVData_returns; rewrite <- ?Hr, <- ?Hc; assumption|].
  assert (length (image_bytes a) = length (image_bytes b)) as Hlen
    by (unfold image_bytes; now rewrite !length_rows_bytes, Hr, Hc).
  split; [exact Hlen|].
  intros i HnY HnU HnV.
  destruct (decide (i < length (image_bytes a))%nat) as [Hi|Hi].
  2: { rewrite !lookup_ge_None_2 by lia. reflexivity. }
  destruct (image_bytes_position a i Hi) as (y & k & c & Hy & Hk & Hc4 & ->).
  rewrite (image_bytes_lookup a) by assumption.
  rewrite Hc.
  rewrite (image_bytes_lookup b) by (rewrite <- ?Hr, <- ?Hc; assumption).
  pose proof (EvenWidth_half (cols a)) as Hhalf.
  pose proof (EvenWidth_bounds _ HW) as Hb.
  set (w := Z.to_nat (EvenWidth (cols a) / 2)) in *.
  assert (EvenWidth (cols a) = 2 * Z.of_nat w) as HEW by lia.
  rewrite HEW in HnY, HnU, HnV.
  unfold group_at, macropixel.
  assert (forall x, 0 <= x < 2 * Z.of_nat w -> (Z.of_nat y, x) <> (y0, x0) ->
                    elem a (Z.of_nat y) x = elem b (Z.of_nat y) x) as Hsame
    by (intros x Hx Hne; apply Hpx; [lia|lia|exact Hne]).
  assert (Z.of_nat y <> y0 \/ Z.of_nat k <> x0 / 2 ->
          elem a (Z.of_nat y) (2 * Z.of_nat k) = elem b (Z.of_nat y) (2 * Z.of_nat k) /\
          elem a (Z.of_nat y) (2 * Z.of_nat k + 1) = elem b (Z.of_nat y) (2 * Z.of_nat k + 1))
    as Hother.
  { intros Hne. split; apply Hsame; try lia;
      intros E; inversion E; subst; Z.div_mod_to_equations; lia. }
  destruct (decide (Z.of_nat y = y0 /\ Z.of_nat k = x0 / 2)) as [[Ey Ek]|Hne].
  - (* the group of the pixel replaced: its chroma positions are excluded,
       and so is its own luma position *)
    destruct c as [|[|[|[|c]]]]; simpl; try lia;
      (rewrite Hsame; [reflexivity|lia|]);
      intros E; inversion E; subst; apply HnY; lia.
  - destruct Hother as [E0 E1]; [lia|]. now rewrite E0, E1.
Qed.

Lemma X10_pixel_locality_witness :
  let a := gradient 2 4 in
  let b := mkMat 2 4 (fun y x => if (y =? 1) && (x =? 3) then mkVec3b xff x00 xff
                                 else elem (gradient 2 4) y x) in
  0 <= cols a /\ 0 <= rows a /\
  EvenWidth (cols a) * rows a * 2 <= INT_MAX /\
  differ_at 1 3 a b /\
  exists bufa bufb,
    GetRawYUYVData a = inr (bufa, EvenWidth (cols a), rows a) /\
    GetRawYUYVData b = inr (bufb, EvenWidth (cols a), rows a) /\
    length bufa = length bufb /\
    forall i : nat,
      Z.of_nat i <> (1 * EvenWidth (cols a) + 3) * 2 ->
      Z.of_nat i <> (1 * EvenWidth (cols a) + 2 * (3 / 2)) * 2 + 1 ->
      Z.of_nat i <> (1 * EvenWidth (cols a) + 2 * (3 / 2)) * 2 + 3 ->
      bufa !! i = bufb !! i.
Proof.
  intros a b.
  assert (0 <= cols a) as HW by (simpl; lia).
  assert (0 <= rows a) as HH by (simpl; lia).
  assert (EvenWidth (cols a) * rows a * 2 <= INT_MAX) as Hfit
    by (vm_compute; discriminate).
  assert (differ_at 1 3 a b) as Hd.
  { split; [reflexivity|]. split; [reflexivity|].
    intros y x Hy Hx Hne. simpl.
    destruct (y =? 1) eqn:Ey; [|reflexivity].
    destruct (x =? 3) eqn:Ex; [|reflexivity].
    apply Z.eqb_eq in Ey, Ex. subst. now destruct Hne. }
  repeat (split; [assumption|]).
  exact (X10_pixel_locality a b 1 3 HW HH Hfit Hd).
Defined.

(** A group of the cropped image is a group of the image. *)
Lemma group_at_roi (bgr : Mat) (kx y0 w0 h0 : Z) (j s : nat) :
  0 <= kx -> 0 <= y0 ->
  group_at (roi bgr (2 * kx) y0 w0 h0) (Z.of_nat j) s
  = group_at bgr (Z.of_nat (Z.to_nat (y0 + Z.of_nat j))) (Z.to_nat kx + s).
Proof.
  intros Hk Hy. unfold group_at. cbn [roi elem].
  rewrite Z2Nat.id by lia.
  replace (2 * kx + 2 * Z.of_nat s) with (2 * Z.of_nat (Z.to_nat kx + s)) by lia.
  replace (2 * kx + (2 * Z.of_nat s + 1)) with (2 * Z.of_nat (Z.to_nat kx + s) + 1) by lia.
  reflexivity.
Qed.

(** X11: encoding commutes with cropping at even columns: for a
    rectangle with even left edge and even width inside the encoded
    image, the encoding of the image cropped to the rectangle is the
    rectangle cut out of the buffer, row by row, and the returned
    dimensions are those of the rectangle. *)
Theorem X11_even_crop (bgr : Mat) (x0 y0 w0 h0 : Z) :
  0 <= cols bgr -> 0 <= rows bgr ->
  EvenWidth (cols bgr) * rows bgr * 2 <= INT_MAX ->
  0 <= x0 -> 0 <= y0 -> 0 <= w0 -> 0 <= h0 ->
  Z.even x0 = true -> Z.even w0 = true ->
  x0 + w0 <= EvenWidth (cols bgr) -> y0 + h0 <= rows bgr ->
  exists buf,
    GetRawYUYVData bgr = inr (buf, EvenWidth (cols bgr), rows bgr) /\
    GetRawYUYVData (roi bgr x0 y0 w0 h0)
    = inr (crop_bytes buf (EvenWidth (cols bgr)) x0 y0 w0 h0, w0, h0).
Proof.
  intros HW HH Hfit Hx0 Hy0 Hw0 Hh0 Ex Ew Hx Hy.
  exists (image_bytes bgr). split; [now apply GetRawYUYVData_returns|].
  pose proof (EvenWidth_half (cols bgr)) as Hhalf.
  pose proof (EvenWidth_bounds _ HW) as Hb.
  apply Z.even_spec in Ex as [kx ->]. apply Z.even_spec in Ew as [kw Ekw].
  assert (EvenWidth (cols (roi bgr (2 * kx) y0 w0 h0)) = w0) as HEr
    by (unfold EvenWidth; simpl; now rewrite Ekw, Z.even_mul).
  rewrite GetRawYUYVData_returns; rewrite ?HEr; simpl rows; simpl cols; try lia; [|nia].
  f_equal. f_equal. f_equal.
  unfold image_bytes at 1. rewrite HEr. simpl rows.
  unfold rows_bytes at 1, crop_bytes.
  set (w := Z.to_nat (EvenWidth (cols bgr) / 2)) in *.
  assert (forall n from,
            (from + n <= Z.to_nat h0)%nat ->
            flat_map (fun j => row_bytes (roi bgr (2 * kx) y0 w0 h0) (Z.of_nat j) 0
                                 (Z.to_nat (w0 / 2))) (seq from n)
            = flat_map (fun j => take (Z.to_nat (2 * w0))
                        (drop (Z.to_nat (((y0 + Z.of_nat j) * EvenWidth (cols bgr) + 2 * kx) * 2))
                              (image_bytes bgr))) (seq from n)) as Hrows.
  2: { apply Hrows. lia. }
  induction n as [|n IH]; intros from Hn; simpl; [reflexivity|].
  rewrite IH by lia. f_equal.
  (* one row *)
  replace (Z.to_nat (((y0 + Z.of_nat from) * EvenWidth (cols bgr) + 2 * kx) * 2))
    with (Z.to_nat (y0 + Z.of_nat from) * (4 * w) + 4 * Z.to_nat kx)%nat by nia.
  replace (Z.to_nat (2 * w0)) with (4 * Z.to_nat kw)%nat by lia.
  unfold image_bytes, rows_bytes. fold w.
  rewrite (window_flat_map_seq _ (4 * w));
    [|intros j; apply length_row_bytes|lia|nia].
  simpl (0 + _)%nat. unfold row_bytes at 2.
  replace (4 * Z.to_nat kx)%nat with (Z.to_nat kx * 4)%nat by lia.
  replace (4 * Z.to_nat kw)%nat with (Z.to_nat kw * 4)%nat by lia.
  rewrite (flat_map_seq_sub _ 4) by (try reflexivity; lia).
  simpl (0 + _)%nat.
  replace (Z.to_nat (w0 / 2)) with (Z.to_nat kw)
    by (rewrite Ekw, Z.mul_comm, Z.div_mul by lia; reflexivity).
  unfold row_bytes.
  assert (forall m s,
            flat_map (group_at (roi bgr (2 * kx) y0 w0 h0) (Z.of_nat from)) (seq s m)
            = flat_map (group_at bgr (Z.of_nat (Z.to_nat (y0 + Z.of_nat from))))
                       (seq (Z.to_nat kx + s) m)) as Hgroups.
  2: { rewrite Hgroups. now rewrite Nat.add_0_r. }
  induction m as [|m IHm]; intros s; cbn [flat_map seq]; [reflexivity|].
  rewrite <- Nat.add_succ_r, IHm. f_equal.
  apply group_at_roi; lia.
Qed.

Lemma X11_even_crop_witness :
  let bgr := gradient 4 7 in
  0 <= cols bgr /\ 0 <= rows bgr /\
  EvenWidth (cols bgr) * rows bgr * 2 <= INT_MAX /\
  0 <= 2 /\ 0 <= 1 /\ 0 <= 4 /\ 0 <= 2 /\
  Z.even 2 = true /\ Z.even 4 = true /\
  2 + 4 <= EvenWidth (cols bgr) /\ 1 + 2 <= rows bgr /\
  exists buf,
    GetRawYUYVData bgr = inr (buf, EvenWidth (cols bgr), rows bgr) /\
    GetRawYUYVData (roi bgr 2 1 4 2)
    = inr (crop_bytes buf (EvenWidth (cols bgr)) 2 1 4 2, 4, 2).
Proof.
  intros bgr.
  assert (0 <= cols bgr) as HW by (simpl; lia).
  assert (0 <= rows bgr) as HH by (simpl; lia).
  assert (EvenWidth (cols bgr) * rows bgr * 2 <= INT_MAX) as Hfit
    by (vm_compute; discriminate).
  assert (0 <= 2) as Hx0 by lia.
  assert (0 <= 1) as Hy0 by lia.
  assert (0 <= 4) as Hw0 by lia.
  assert (Z.even 2 = true) as Ex by reflexivity.
  assert (Z.even 4 = true) as Ew by reflexivity.
  assert (2 + 4 <= EvenWidth (cols bgr)) as Hx by (vm_compute; discriminate).
  assert (1 + 2 <= rows bgr) as Hy by (simpl; lia).
  repeat (split; [assumption|]).
  exact (X11_even_crop bgr 2 1 4 2 HW HH Hfit Hx0 Hy0 Hw0 Hx0 Ex Ew Hx Hy).
Defined.

(** ** The order of the accesses *)

Lemma length_row_reads (y : Z) (from cnt : nat) :
  length (row_reads y from cnt) = (cnt * 2)%nat.
Proof.
  unfold row_reads. now apply length_flat_map_seq.
Qed.

Lemma length_rows_reads (w from cnt : nat) :
  length (rows_reads w from cnt) = (cnt * (w * 2))%nat.
Proof.
  unfold rows_reads. apply length_flat_map_seq. intros j. apply length_row_reads.
Qed.

Lemma rows_reads_lookup (w cnt y k c : nat) :
  (y < cnt)%nat -> (k < w)%nat -> (c < 2)%nat ->
  rows_reads w 0 cnt !! (y * (w * 2) + (k * 2 + c))%nat
  = Some (Z.of_nat y, 2 * Z.of_nat k + Z.of_nat c).
Proof.
  intros Hy Hk Hc. unfold rows_reads.
  rewrite (lookup_flat_map_seq _ (w * 2)); [|intros j; apply length_row_reads|assumption|lia].
  simpl (0 + y)%nat. unfold row_reads.
  rewrite (lookup_flat_map_seq _ 2); [|reflexivity|assumption|assumption].
  simpl (0 + k)%nat. unfold group_reads.
  destruct c as [|[|c]]; [| |lia]; simpl; repeat f_equal; lia.
Qed.

(** X13: the call reads the image in one pass in raster order: it makes
    [EvenWidth * Height] accesses, and the access number
    [y * EvenWidth + x] is the one to pixel (y, x); every pixel of the
    encoded columns is read exactly once. *)
Theorem X13_raster_reads (bgr : Mat) (y x : Z) :
  0 <= cols bgr -> 0 <= rows bgr ->
  EvenWidth (cols bgr) * rows bgr * 2 <= INT_MAX ->
  0 <= y < rows bgr -> 0 <= x < EvenWidth (cols bgr) ->
  Z.of_nat (length (accessed bgr)) = EvenWidth (cols bgr) * rows bgr /\
  accessed bgr !! Z.to_nat (y * EvenWidth (cols bgr) + x) = Some (y, x).
Proof.
  intros HW HH Hfit Hy Hx.
  destruct (call_cases bgr HW HH) as [(_ & _ & Ha & _)|(Hbig & _)]; [|lia].
  rewrite Ha. unfold image_reads.
  pose proof (EvenWidth_half (cols bgr)) as Hhalf.
  set (w := EvenWidth (cols bgr) / 2) in *.
  split; [rewrite length_rows_reads; nia|].
  replace (Z.to_nat (y * EvenWidth (cols bgr) + x))
    with (Z.to_nat y * (Z.to_nat w * 2) + (Z.to_nat (x / 2) * 2 + Z.to_nat (x mod 2)))%nat.
  - rewrite rows_reads_lookup.
    + f_equal. f_equal; [lia|]. rewrite !Z2Nat.id by (Z.div_mod_to_equations; lia).
      Z.div_mod_to_equations; lia.
    + lia.
    + Z.div_mod_to_equations; lia.
    + Z.div_mod_to_equations; lia.
  - assert (x = 2 * (x / 2) + x mod 2) as Hx2 by (Z.div_mod_to_equations; lia).
    assert (0 <= x / 2) by (Z.div_mod_to_equations; lia).
    assert (0 <= x mod 2) by (Z.div_mod_to_equations; lia).
    rewrite Hhalf. rewrite Hx2 at 3. nia.
Qed.

Lemma X13_raster_reads_witness :
  let bgr := gradient 3 5 in
  0 <= cols bgr /\ 0 <= rows bgr /\
  EvenWidth (cols bgr) * rows bgr * 2 <= INT_MAX /\
  0 <= 2 < rows bgr /\ 0 <= 3 < EvenWidth (cols bgr) /\
  Z.of_nat (length (accessed bgr)) = EvenWidth (cols bgr) * rows bgr /\
  accessed bgr !! Z.to_nat (2 * EvenWidth (cols bgr) + 3) = Some (2, 3).
Proof.
  intros bgr.
  assert (0 <= cols bgr) as HW by (simpl; lia).
  assert (0 <= rows bgr) as HH by (simpl; lia).
  assert (EvenWidth (cols bgr) * rows bgr * 2 <= INT_MAX) as Hfit
    by (vm_compute; discriminate).
  assert (0 <= 2 < rows bgr) as Hy by (simpl; lia).
  assert (0 <= 3 < EvenWidth (cols bgr)) as Hx
    by (vm_compute; split; [discriminate|reflexivity]).
  repeat (split; [assumption|]).
  exact (X13_raster_reads bgr 2 3 HW HH Hfit Hy Hx).
Defined.
